(** * OpenChamber slash-command engine: a shallow embedding

    This development embeds the logic-bearing parts of
    [packages/ui/src/components/chat/CommandAutocomplete.tsx],
    [packages/ui/src/lib/api/opencodeApi.ts] and the [executeCommand]
    store method listed in [summary.md], and states the properties of the
    slash-command specification over them.

    Conventions of the embedding:
    - a JavaScript string is a [string]; [toLowerCase] is exact on ASCII
      (catalog names are lowercase ASCII by convention);
    - a JavaScript [Map] that is only read through [get] is a [gmap]; the
      [commandMap] of the merger, whose iteration order decides the visible
      order, is an insertion-ordered association list;
    - an [async] function that may reject is a function into [Completion];
    - selection indices are integers ([Z]); the JavaScript remainder [%]
      is [Z.rem] (truncated, sign of the dividend). *)

From Stdlib Require Import ZArith Lia Bool List Ascii String DecimalString.
From stdpp Require Import base option gmap strings.
Import ListNotations.

Local Open Scope string_scope.

(** ** JavaScript primitives used by the sources *)

Module JS.

(** [String.prototype.toLowerCase], on ASCII letters. *)
Definition lowerChar (c : ascii) : ascii :=
  let n := nat_of_ascii c in
  if (65 <=? n)%nat && (n <=? 90)%nat then ascii_of_nat (n + 32) else c.

Fixpoint toLowerCase (s : string) : string :=
  match s with
  | EmptyString => EmptyString
  | String c s' => String (lowerChar c) (toLowerCase s')
  end.

(** [s.startsWith(q)]. *)
Definition startsWith (s q : string) : bool := String.prefix q s.

(** [s.includes(q)]: [q] occurs in [s] at some offset. *)
Fixpoint includes (s q : string) : bool :=
  startsWith s q ||
  match s with
  | EmptyString => false
  | String _ s' => includes s' q
  end.

(** Truthiness of a string value: only the empty string is falsy. *)
Definition truthy (s : string) : bool := negb (String.eqb s "").

(** Truthiness of a possibly [null]/[undefined] string. *)
Definition truthyOpt (s : option string) : bool :=
  match s with
  | Some v => truthy v
  | None => false
  end.

(** [s || d] for a possibly missing string [s]. *)
Definition orString (s : option string) (d : string) : string :=
  match s with
  | Some v => if truthy v then v else d
  | None => d
  end.

(** [a[i]] on an array: [undefined] outside [0 .. length-1]. *)
Definition index {A : Type} (a : list A) (i : Z) : option A :=
  if (i <? 0)%Z then None else nth_error a (Z.to_nat i).

(** Template rendering of a non-negative integer. *)
Definition showN (n : N) : string := NilEmpty.string_of_uint (N.to_uint n).

(** Outcome of awaiting a promise: fulfilled with a value or rejected
    with a thrown value of type [E]. *)
Inductive Completion (E A : Type) : Type :=
| Fulfilled (a : A)
| Rejected (e : E).
Arguments Fulfilled {E A} a.
Arguments Rejected {E A} e.

Definition bind {E A B : Type} (m : Completion E A) (k : A -> Completion E B)
  : Completion E B :=
  match m with
  | Fulfilled a => k a
  | Rejected e => Rejected e
  end.

(** [try { body } catch { handler }] with a handler that ignores the
    thrown value. *)
Definition tryCatch {E A : Type} (body : Completion E A)
    (handler : Completion E A) : Completion E A :=
  match body with
  | Fulfilled a => Fulfilled a
  | Rejected _ => handler
  end.

End JS.

(** ** [opencodeApi.ts]: the direct HTTP client *)

Module Api.
Import JS.

(** A parsed JSON body.  Object fields are kept in source order;
    [JSON.parse] lets the last duplicate key win.  Of a number the client
    observes its truthiness only, which [isZero] records. *)
#[local] Unset Elimination Schemes.
Inductive JsonValue : Type :=
| JNull
| JBool (b : bool)
| JNumber (isZero : bool)
| JString (s : string)
| JArray (items : list JsonValue)
| JObject (fields : list (string * JsonValue)).
#[local] Set Elimination Schemes.

(** What an [async] call of this client can reject with.  [ErrorOf v] is
    [new Error(v)], whose message is [String(v)]: for a string [v], [v]. *)
Inductive Thrown : Type :=
| ErrorOf (message : JsonValue)
| TypeError
| SyntaxError
| NetworkError.

Definition Error (message : string) : Thrown := ErrorOf (JString message).

Record Response : Type := {
  ok : bool;
  status : N;
  statusText : string;
  json : Completion Thrown JsonValue   (* [response.json()] *)
}.

Record Request : Type := {
  url : string;
  method : string;
  headers : list (string * string);
  body : option JsonValue              (* argument of [JSON.stringify] *)
}.

Definition API_BASE : string := "/api".

Definition getAuthHeaders : list (string * string) :=
  [("Content-Type", "application/json"); ("X-OpenChamber-Version", "1.0")].

(** Truthiness of a JSON value ([undefined] is [None]). *)
Definition jsonTruthy (v : JsonValue) : bool :=
  match v with
  | JNull => false
  | JBool b => b
  | JNumber isZero => negb isZero
  | JString s => JS.truthy s
  | JArray _ | JObject _ => true
  end.

Definition jsonTruthyOpt (v : option JsonValue) : bool :=
  match v with
  | Some x => jsonTruthy x
  | None => false
  end.

Fixpoint lookupField (p : string) (fields : list (string * JsonValue))
  : option JsonValue :=
  match fields with
  | [] => None
  | (k, v) :: rest =>
      match lookupField p rest with
      | Some later => Some later
      | None => if String.eqb k p then Some v else None
      end
  end.

(** [v.p]: a [TypeError] on [null], [undefined] where [v] has no such
    property. *)
Definition getProp (v : JsonValue) (p : string)
  : Completion Thrown (option JsonValue) :=
  match v with
  | JNull => Rejected TypeError
  | JObject fields => Fulfilled (lookupField p fields)
  | _ => Fulfilled None
  end.

Definition fallbackMessage (response : Response) : string :=
  "HTTP " ++ showN (status response) ++ ": " ++ statusText response.

(** [handleApiError]: the [throw new Error(errorMessage)] sits inside the
    [try] block, so the bare [catch] that follows receives it. *)
Definition handleApiError (response : Response) : Completion Thrown Empty_set :=
  tryCatch
    (bind (json response) (fun errorData =>
     bind (getProp errorData "message") (fun message =>
     bind (if jsonTruthyOpt message then Fulfilled message
           else bind (getProp errorData "error") (fun error =>
                Fulfilled (if jsonTruthyOpt error then error
                           else Some (JString ("HTTP " ++ showN (status response))))))
          (fun errorMessage =>
     Rejected (ErrorOf (default JNull errorMessage))))))
    (Rejected (Error (fallbackMessage response))).

(** The shared tail of the three operations:
    [if (!response.ok) await handleApiError(response); return response.json();] *)
Definition checked (response : Response) : Completion Thrown JsonValue :=
  bind (if negb (ok response)
        then bind (handleApiError response) (fun never => match never with end)
        else Fulfilled tt)
       (fun _ => json response).

Section Client.
(** The ambient [fetch]. *)
Variable fetch : Request -> Completion Thrown Response.

Definition editMessage (sessionId messageId content : string)
  : Completion Thrown JsonValue :=
  bind (fetch {| url := API_BASE ++ "/session/" ++ sessionId ++ "/message/" ++ messageId;
                 method := "PATCH";
                 headers := getAuthHeaders;
                 body := Some (JObject [("content", JString content)]) |})
       checked.

Definition clearSession (sessionId : string) : Completion Thrown JsonValue :=
  bind (fetch {| url := API_BASE ++ "/session/" ++ sessionId ++ "/clear";
                 method := "POST";
                 headers := getAuthHeaders;
                 body := None |})
       checked.

Definition compactSession (sessionId : string) : Completion Thrown JsonValue :=
  bind (fetch {| url := API_BASE ++ "/session/" ++ sessionId ++ "/compact";
                 method := "POST";
                 headers := getAuthHeaders;
                 body := None |})
       checked.
End Client.

(** What the documentation of [handleApiError] describes: the message
    extracted from the body, the status line only when none can be. *)
Definition documentedMessage (response : Response) : JsonValue :=
  match json response with
  | Fulfilled (JObject fields) =>
      match lookupField "message" fields, lookupField "error" fields with
      | Some m, e =>
          if jsonTruthy m then m
          else if jsonTruthyOpt e then default JNull e
          else JString (fallbackMessage response)
      | None, e =>
          if jsonTruthyOpt e then default JNull e
          else JString (fallbackMessage response)
      end
  | _ => JString (fallbackMessage response)
  end.

(** A [404] whose body is [{"message": "Session not found"}]. *)
Definition notFound : Response :=
  {| ok := false;
     status := 404;
     statusText := "Not Found";
     json := Fulfilled (JObject [("message", JString "Session not found")]) |}.

(** [getSessionState] *)
Definition getSessionState (fetch : Request -> Completion Thrown Response)
    (sessionId : string) : Completion Thrown JsonValue :=
  bind (fetch {| url := API_BASE ++ "/session/" ++ sessionId ++ "/state";
                 method := "GET";
                 headers := getAuthHeaders;
                 body := None |})
       checked.

(** The request each operation hands to [fetch]. *)
Definition editMessageRequest (sessionId messageId content : string) : Request :=
  {| url := API_BASE ++ "/session/" ++ sessionId ++ "/message/" ++ messageId;
     method := "PATCH";
     headers := getAuthHeaders;
     body := Some (JObject [("content", JString content)]) |}.

Definition sessionRequest (verb action sessionId : string) : Request :=
  {| url := API_BASE ++ "/session/" ++ sessionId ++ "/" ++ action;
     method := verb;
     headers := getAuthHeaders;
     body := None |}.

(** No character of the identifier is the path separator. *)
Fixpoint slashFree (s : string) : bool :=
  match s with
  | EmptyString => true
  | String c s' => negb (Ascii.eqb c "/") && slashFree s'
  end.

(** What an operation makes of the answer to its request. *)
Definition outcomeOf (answer : Completion Thrown Response)
  : Completion Thrown JsonValue :=
  match answer with
  | Rejected e => Rejected e
  | Fulfilled response =>
      if ok response then json response
      else Rejected (Error (fallbackMessage response))
  end.

End Api.

(** ** [CommandAutocomplete.tsx]: catalog, availability, selection *)

Module Autocomplete.
Import JS.

Record CommandInfo : Type := {
  name : string;
  description : option string;
  agent : option string;
  model : option string;
  isBuiltIn : option bool
}.

(** An entry of [opencodeClient.listCommands()]. *)
Record ApiCommand : Type := {
  apiName : string;
  apiDescription : option string;
  apiAgent : option string;
  apiModel : option string
}.

(** *** The session store, as far as the component reads it *)

Inductive Role : Type := RoleUser | RoleAssistant.

Record Message : Type := {
  messageId : string;
  role : Role                            (* [info.role] *)
}.

Record Session : Type := {
  id : string;
  revertMessageID : option string        (* [revert?.messageID] *)
}.

Record StoreState : Type := {
  currentSessionId : option string;
  messages : gmap string (list Message);
  sessions : list Session;
  sessionActivityPhase : option (gmap string string)
}.

(** The values the component's [useSessionStore] selector hands to its
    callbacks. *)
Record Selected : Type := {
  hasMessagesInCurrentSession : bool;
  selectedSessionId : option string
}.

Definition selector (state : StoreState) : Selected :=
  let sessionId := currentSessionId state in
  let messageCount :=
    if truthyOpt sessionId
    then match messages state !! default "" sessionId with
         | Some ms => length ms
         | None => 0
         end
    else 0 in
  {| hasMessagesInCurrentSession := (0 <? messageCount)%nat;
     selectedSessionId := sessionId |}.

(** *** [isCommandAvailable] *)

Definition sessionMessagesOf (sel : Selected) (state : StoreState) : list Message :=
  if truthyOpt (selectedSessionId sel)
  then default [] (messages state !! default "" (selectedSessionId sel))
  else [].

Definition sessionOf (sel : Selected) (state : StoreState) : option Session :=
  if truthyOpt (selectedSessionId sel)
  then List.find (fun s => String.eqb (id s) (default "" (selectedSessionId sel)))
                 (sessions state)
  else None.

(** [sel] holds the values captured by the callback, [state] is what
    [useSessionStore.getState()] returns when it runs. *)
Definition isCommandAvailable (sel : Selected) (state : StoreState)
    (command : CommandInfo) : bool :=
  if negb (default false (isBuiltIn command)) then true
  else
    let sessionMessages := sessionMessagesOf sel state in
    let session := sessionOf sel state in
    let n := name command in
    if String.eqb n "init" then negb (hasMessagesInCurrentSession sel)
    else if String.eqb n "summarize" then hasMessagesInCurrentSession sel
    else if String.eqb n "revert" || String.eqb n "undo"
      then (1 <? length sessionMessages)%nat
    else if String.eqb n "unrevert" || String.eqb n "redo"
      then truthyOpt (s ← session; revertMessageID s)
    else if String.eqb n "abort"
      then match m ← sessionActivityPhase state;
                 m !! orString (selectedSessionId sel) "" with
           | Some phase => String.eqb phase "busy"
           | None => false
           end
    else if String.eqb n "edit"
      then (0 <? length sessionMessages)%nat &&
           match last sessionMessages with
           | Some m => match role m with RoleUser => true | RoleAssistant => false end
           | None => false
           end
    else if String.eqb n "clear" || String.eqb n "compact"
      then (0 <? length sessionMessages)%nat
    else true.

(** *** [loadCommands]: merge, filter, gate, sort *)

Definition builtIn (n d : string) : CommandInfo :=
  {| name := n; description := Some d; agent := None; model := None;
     isBuiltIn := Some true |}.

Definition builtInCommands (sel : Selected) : list CommandInfo :=
  (if hasMessagesInCurrentSession sel then []
   else [builtIn "init" "Create/update AGENTS.md file"]) ++
  [ builtIn "summarize" "Generate a summary of the current session";
    builtIn "revert" "Revert session to previous state";
    builtIn "unrevert" "Undo revert operation";
    builtIn "abort" "Interrupt current operation";
    builtIn "undo" "Undo last action";
    builtIn "redo" "Redo last action";
    builtIn "edit" "Edit last message";
    builtIn "clear" "Clear current session";
    builtIn "compact" "Compact session history" ].

Definition customCommand (cmd : ApiCommand) : CommandInfo :=
  {| name := apiName cmd;
     description := apiDescription cmd;
     agent := apiAgent cmd;
     model := apiModel cmd;
     isBuiltIn := Some false |}.

(** [Map<string, CommandInfo>]: [set] on a present key replaces the value
    in place, on a new key appends; [values()] iterates in that order. *)
Definition CommandMap : Type := list (string * CommandInfo).

Fixpoint mapSet (key : string) (value : CommandInfo) (m : CommandMap) : CommandMap :=
  match m with
  | [] => [(key, value)]
  | (k, v) :: rest =>
      if String.eqb k key then (k, value) :: rest
      else (k, v) :: mapSet key value rest
  end.

(** [commandMap.get(key)] *)
Fixpoint mapGet (key : string) (m : CommandMap) : option CommandInfo :=
  match m with
  | [] => None
  | (k, v) :: rest => if String.eqb k key then Some v else mapGet key rest
  end.

(** Every key of the map is the name of the command stored under it. *)
Definition keyed (m : CommandMap) : Prop :=
  Forall (fun kv => fst kv = name (snd kv)) m.

(** [cmds.forEach(cmd => commandMap.set(cmd.name, cmd))] *)
Definition setEach (cmds : list CommandInfo) (m : CommandMap) : CommandMap :=
  fold_left (fun acc cmd => mapSet (name cmd) cmd acc) cmds m.

Definition mapValues (m : CommandMap) : list CommandInfo := map snd m.

Definition mergeCommands (builtIns customCommands : list CommandInfo)
  : list CommandInfo :=
  mapValues (setEach customCommands (setEach builtIns [])).

Definition matchesQuery (searchQuery : string) (cmd : CommandInfo) : bool :=
  includes (toLowerCase (name cmd)) (toLowerCase searchQuery) ||
  match description cmd with
  | Some d => truthy d && includes (toLowerCase d) (toLowerCase searchQuery)
  | None => false
  end.

(** The filter chain both branches of [loadCommands] apply. *)
Definition gate (sel : Selected) (state : StoreState) (searchQuery : string)
    (candidates : list CommandInfo) : list CommandInfo :=
  let allowInitCommand := negb (hasMessagesInCurrentSession sel) in
  List.filter (isCommandAvailable sel state)
    (List.filter (fun cmd => allowInitCommand || negb (String.eqb (name cmd) "init"))
       (if truthy searchQuery
        then List.filter (matchesQuery searchQuery) candidates
        else candidates)).

Section Sorting.
(** [String.prototype.localeCompare] depends on the host's collation;
    it is taken as given.  Its sign is what the comparator uses. *)
Variable localeCompare : string -> string -> Z.

Definition compareCommands (searchQuery : string) (a b : CommandInfo) : Z :=
  let aStartsWith := startsWith (toLowerCase (name a)) (toLowerCase searchQuery) in
  let bStartsWith := startsWith (toLowerCase (name b)) (toLowerCase searchQuery) in
  if aStartsWith && negb bStartsWith then (-1)%Z
  else if negb aStartsWith && bStartsWith then 1%Z
  else localeCompare (name a) (name b).

(** [Array.prototype.sort] is a stable sort by the comparator. *)
Fixpoint insertBy (cmp : CommandInfo -> CommandInfo -> Z) (x : CommandInfo)
    (sorted : list CommandInfo) : list CommandInfo :=
  match sorted with
  | [] => [x]
  | y :: rest =>
      if (cmp x y <=? 0)%Z then x :: y :: rest
      else y :: insertBy cmp x rest
  end.

Definition sortBy (cmp : CommandInfo -> CommandInfo -> Z)
    (l : list CommandInfo) : list CommandInfo :=
  fold_right (insertBy cmp) [] l.

(** [loadCommands]: [Fulfilled l] when it ends with [setCommands(l)].
    [listCommands] is the outcome of [opencodeClient.listCommands()]. *)
Definition loadCommands {E : Type} (listCommands : Completion E (list ApiCommand))
    (sel : Selected) (state : StoreState) (searchQuery : string)
  : Completion E (list CommandInfo) :=
  tryCatch
    (bind listCommands (fun apiCommands =>
       let customCommands := map customCommand apiCommands in
       let allCommands := mergeCommands (builtInCommands sel) customCommands in
       let filtered := gate sel state searchQuery allCommands in
       Fulfilled (sortBy (compareCommands searchQuery) filtered)))
    (Fulfilled (gate sel state searchQuery (builtInCommands sel))).
End Sorting.

(** A collation for examples: code-unit order, which agrees with every
    locale on lowercase ASCII names. *)
Definition codeUnitCompare (a b : string) : Z :=
  match String.compare a b with
  | Lt => (-1)%Z
  | Eq => 0%Z
  | Gt => 1%Z
  end.

(** *** [handleKeyDown]: the selection state *)

Record Selection : Type := {
  commands : list CommandInfo;
  selectedIndex : Z
}.

Inductive Signal : Type :=
| Close                                   (* [onClose()] *)
| CommandSelect (command : CommandInfo).  (* [onCommandSelect(command)] *)

Definition setSelectedIndex (s : Selection) (update : Z -> Z) : Selection :=
  {| commands := commands s; selectedIndex := update (selectedIndex s) |}.

Definition handleKeyDown (key : string) (s : Selection) : Selection * list Signal :=
  let total := Z.of_nat (length (commands s)) in
  if String.eqb key "Escape" then (s, [Close])
  else if (total =? 0)%Z then (s, [])
  else if String.eqb key "ArrowDown"
    then (setSelectedIndex s (fun prev => Z.rem (prev + 1) total), [])
  else if String.eqb key "ArrowUp"
    then (setSelectedIndex s (fun prev => Z.rem (prev - 1 + total) total), [])
  else if String.eqb key "Enter" || String.eqb key "Tab"
    then let safeIndex := Z.rem (Z.rem (selectedIndex s) total + total) total in
         match index (commands s) safeIndex with
         | Some command => (s, [CommandSelect command])
         | None => (s, [])
         end
  else (s, []).

(** The selection [s] with its index replaced, and the length of its
    visible list. *)
Definition withIndex (s : Selection) (i : Z) : Selection :=
  {| commands := commands s; selectedIndex := i |}.

Definition total (s : Selection) : Z := Z.of_nat (length (commands s)).

(** *** The rest of the component: reset, pointer events, rendering *)

(** [setCommands(cmds)] together with the effect it triggers,
    [useEffect(() => setSelectedIndex(0), [commands])]. *)
Definition setCommands (cmds : list CommandInfo) (s : Selection) : Selection :=
  {| commands := cmds; selectedIndex := 0 |}.

(** [onMouseEnter] and [onClick] of the row rendered for [commands[i]];
    rows exist for the indices of [commands.map] only. *)
Definition onMouseEnter (i : nat) (s : Selection) : Selection :=
  match nth_error (commands s) i with
  | Some _ => setSelectedIndex s (fun _ => Z.of_nat i)
  | None => s
  end.

Definition onClick (i : nat) (s : Selection) : list Signal :=
  match nth_error (commands s) i with
  | Some command => [CommandSelect command]
  | None => []
  end.

(** What can happen to a mounted component. *)
Inductive Event : Type :=
| KeyDown (key : string)
| MouseEnter (i : nat)
| Click (i : nat)
| CommandsLoaded (cmds : list CommandInfo).

Definition step (s : Selection) (e : Event) : Selection * list Signal :=
  match e with
  | KeyDown key => handleKeyDown key s
  | MouseEnter i => (onMouseEnter i s, [])
  | Click i => (s, onClick i s)
  | CommandsLoaded cmds => (setCommands cmds s, [])
  end.

(** The state after a run of events, and every signal emitted on the way. *)
Fixpoint run (s : Selection) (events : list Event) : Selection * list Signal :=
  match events with
  | [] => (s, [])
  | e :: rest =>
      let (s1, out1) := step s e in
      let (s2, out2) := run s1 rest in
      (s2, (out1 ++ out2)%list)
  end.

(** The component as mounted: [useState([])], [useState(0)]. *)
Definition mounted : Selection := {| commands := []; selectedIndex := 0 |}.

(** The text of the placeholder row, rendered when loading is over and
    [commands.length === 0]. *)
Definition emptyMessage (searchQuery : string) (sessionId : option string) : string :=
  if truthy searchQuery then "No commands found"
  else if truthyOpt sessionId then "No commands available in current context"
  else "No active session for commands".

Definition placeholder (loading : bool) (cmds : list CommandInfo)
    (searchQuery : string) (sessionId : option string) : option string :=
  if loading then None
  else if (length cmds =? 0)%nat then Some (emptyMessage searchQuery sessionId)
  else None.

(** [getCommandIcon]: the icon component and the [className] it is given. *)
Inductive Icon : Type :=
| RiFileLine | RiScissorsLine | RiArrowGoBackLine | RiArrowGoForwardLine
| RiStopLine | RiPencilLine | RiDeleteBinLine | RiContractLine
| RiTerminalBoxLine | RiFlashlightLine | RiCommandLine.

Definition getCommandIcon (command : CommandInfo) : Icon * string :=
  let n := name command in
  if String.eqb n "init" then (RiFileLine, "h-3.5 w-3.5 text-green-500")
  else if String.eqb n "summarize" then (RiScissorsLine, "h-3.5 w-3.5 text-purple-500")
  else if String.eqb n "revert" then (RiArrowGoBackLine, "h-3.5 w-3.5 text-blue-500")
  else if String.eqb n "unrevert" then (RiArrowGoForwardLine, "h-3.5 w-3.5 text-blue-500")
  else if String.eqb n "abort" then (RiStopLine, "h-3.5 w-3.5 text-red-500")
  else if String.eqb n "undo" then (RiArrowGoBackLine, "h-3.5 w-3.5 text-yellow-500")
  else if String.eqb n "redo" then (RiArrowGoForwardLine, "h-3.5 w-3.5 text-yellow-500")
  else if String.eqb n "edit" then (RiPencilLine, "h-3.5 w-3.5 text-cyan-500")
  else if String.eqb n "clear" then (RiDeleteBinLine, "h-3.5 w-3.5 text-orange-500")
  else if String.eqb n "compact" then (RiContractLine, "h-3.5 w-3.5 text-indigo-500")
  else if String.eqb n "test" || String.eqb n "build" || String.eqb n "run"
    then (RiTerminalBoxLine, "h-3.5 w-3.5 text-cyan-500")
  else if default false (isBuiltIn command)
    then (RiFlashlightLine, "h-3.5 w-3.5 text-yellow-500")
  else (RiCommandLine, "h-3.5 w-3.5 text-muted-foreground").

(** The highlight sits on a row of the list, or on [0] when there is none. *)
Definition settled (s : Selection) : Prop :=
  (commands s = [] /\ selectedIndex s = 0%Z) \/ (0 <= selectedIndex s < total s)%Z.

End Autocomplete.

(** ** [useSessionStore.executeCommand], as listed in [summary.md] *)

Module Store.
Import JS.

Inductive Thrown : Type :=
| Error (message : string).

(** [{ command, timestamp, success }] *)
Record HistoryEntry : Type := {
  command : string;
  timestamp : Z;
  success : bool
}.

Record State : Type := {
  currentSessionId : option string;
  commandHistory : list HistoryEntry
}.

(** [set((state) => ({ commandHistory: [...state.commandHistory, entry] }))] *)
Definition appendHistory (entry : HistoryEntry) (state : State) : State :=
  {| currentSessionId := currentSessionId state;
     commandHistory := commandHistory state ++ [entry] |}.

(** [executeCommand].  The listing elides most arms of its [switch]; the
    arms act on the session through the SDK client and the message store,
    and are represented by [dispatch], the outcome of running the arm
    selected by the command name against the session.  [now] is the value
    [Date.now()] returns when the entry is built. *)
Definition executeCommand
    (dispatch : string -> string -> Completion Thrown unit) (now : Z)
    (commandName : string) (state : State) : State * Completion Thrown unit :=
  if negb (truthyOpt (currentSessionId state))
  then (state, Rejected (Error "No active session"))
  else
    match dispatch commandName (default "" (currentSessionId state)) with
    | Fulfilled _ =>
        (appendHistory {| command := commandName; timestamp := now; success := true |}
                       state,
         Fulfilled tt)
    | Rejected error =>
        (appendHistory {| command := commandName; timestamp := now; success := false |}
                       state,
         Rejected error)
    end.

(** One execution attempt together with what the environment answers. *)
Record Attempt : Type := {
  attemptCommand : string;
  attemptSession : option string;   (* [get().currentSessionId] at the call *)
  attemptTime : Z;
  attemptDispatch : string -> string -> Completion Thrown unit
}.

Definition attemptActive (a : Attempt) : bool := truthyOpt (attemptSession a).

Definition attemptSucceeds (a : Attempt) : bool :=
  match attemptDispatch a (attemptCommand a) (default "" (attemptSession a)) with
  | Fulfilled _ => true
  | Rejected _ => false
  end.

(** The history after one attempt on a store whose history is [history]. *)
Definition attempt (history : list HistoryEntry) (a : Attempt) : list HistoryEntry :=
  commandHistory
    (fst (executeCommand (attemptDispatch a) (attemptTime a) (attemptCommand a)
            {| currentSessionId := attemptSession a; commandHistory := history |})).

Definition runAttempts (history : list HistoryEntry) (attempts : list Attempt)
  : list HistoryEntry :=
  fold_left attempt attempts history.

(** The entry an attempt made with an active session leaves. *)
Definition entryOf (a : Attempt) : HistoryEntry :=
  {| command := attemptCommand a;
     timestamp := attemptTime a;
     success := attemptSucceeds a |}.

(** Entries carry non-decreasing timestamps, oldest first. *)
Fixpoint chronological (history : list HistoryEntry) : Prop :=
  match history with
  | [] => True
  | e :: rest =>
      Forall (fun later => (timestamp e <= timestamp later)%Z) rest /\
      chronological rest
  end.

(** The clock readings of a run of attempts never go back. *)
Fixpoint clockMonotone (attempts : list Attempt) : Prop :=
  match attempts with
  | [] => True
  | a :: rest =>
      Forall (fun later => (attemptTime a <= attemptTime later)%Z) rest /\
      clockMonotone rest
  end.

End Store.

(** ** The specification's vocabulary *)

Module Spec.
Import JS Autocomplete.

Inductive LastMessageRole : Type := none | user | assistant.

Inductive ActivityPhase : Type := idle | busy.

(** The session-state snapshot of the specification. *)
Record Snapshot : Type := {
  messageCount : nat;
  lastMessageRole : LastMessageRole;
  hasPendingRevert : bool;
  activityPhase : ActivityPhase
}.

(** How the component reads each field of the snapshot off the store. *)
Definition snapshotOf (state : StoreState) : Snapshot :=
  let sel := selector state in
  let sessionMessages := sessionMessagesOf sel state in
  {| messageCount := length sessionMessages;
     lastMessageRole :=
       match last sessionMessages with
       | None => none
       | Some m => match role m with RoleUser => user | RoleAssistant => assistant end
       end;
     hasPendingRevert := truthyOpt (s ← sessionOf sel state; revertMessageID s);
     activityPhase :=
       match m ← sessionActivityPhase state;
             m !! orString (currentSessionId state) "" with
       | Some phase => if String.eqb phase "busy" then busy else idle
       | None => idle
       end |}.

(** The availability table of the specification, over a snapshot. *)
Definition isAvailable (command : CommandInfo) (snap : Snapshot) : bool :=
  match isBuiltIn command with
  | Some true =>
      let n := name command in
      if String.eqb n "init" then (messageCount snap =? 0)%nat
      else if String.eqb n "summarize" then (0 <? messageCount snap)%nat
      else if String.eqb n "revert" || String.eqb n "undo"
        then (1 <? messageCount snap)%nat
      else if String.eqb n "unrevert" || String.eqb n "redo"
        then hasPendingRevert snap
      else if String.eqb n "abort"
        then match activityPhase snap with busy => true | idle => false end
      else if String.eqb n "edit"
        then (0 <? messageCount snap)%nat &&
             match lastMessageRole snap with user => true | _ => false end
      else if String.eqb n "clear" || String.eqb n "compact"
        then (0 <? messageCount snap)%nat
      else true
  | _ => true
  end.

(** The command of a catalog listed last under the name [n]. *)
Definition lastNamed (n : string) (catalog : list CommandInfo) : option CommandInfo :=
  fold_left (fun found c => if String.eqb (name c) n then Some c else found)
            catalog None.

(** The entries of a candidate list that carry the name [n]. *)
Definition entriesNamed (n : string) (l : list CommandInfo) : list CommandInfo :=
  List.filter (fun e => String.eqb (name e) n) l.

(** The activity map records [busy] under the key [sessionId]. *)
Definition busyUnder (sessionId : string) (state : StoreState) : bool :=
  match m ← sessionActivityPhase state; m !! sessionId with
  | Some phase => String.eqb phase "busy"
  | None => false
  end.

(** The names the availability table gates. *)
Definition gatedNames : list string :=
  ["init"; "summarize"; "revert"; "undo"; "unrevert"; "redo"; "abort"; "edit";
   "clear"; "compact"].

(** The visible list is ordered for [searchQuery]: a command whose name
    starts with the query never follows one whose name does not, and inside
    either group names ascend under [le]. *)
Definition startsWithQuery (searchQuery : string) (c : CommandInfo) : bool :=
  startsWith (toLowerCase (name c)) (toLowerCase searchQuery).

Definition inOrder (le : string -> string -> Prop) (searchQuery : string)
    (a b : CommandInfo) : Prop :=
  (startsWithQuery searchQuery b = true -> startsWithQuery searchQuery a = true) /\
  (startsWithQuery searchQuery a = startsWithQuery searchQuery b ->
   le (name a) (name b)).

Fixpoint pairwise (R : CommandInfo -> CommandInfo -> Prop) (l : list CommandInfo)
    : Prop :=
  match l with
  | [] => True
  | a :: rest => Forall (R a) rest /\ pairwise R rest
  end.

Definition ordered (le : string -> string -> Prop) (searchQuery : string)
    (l : list CommandInfo) : Prop :=
  pairwise (inOrder le searchQuery) l.

(** The candidates a load starts from: the merge when the fetch succeeds,
    the built-in list when it fails. *)
Definition candidatesOf {E : Type} (listCommands : Completion E (list ApiCommand))
    (sel : Selected) : list CommandInfo :=
  match listCommands with
  | Fulfilled apiCommands =>
      mergeCommands (builtInCommands sel) (map customCommand apiCommands)
  | Rejected _ => builtInCommands sel
  end.

(** The built-in command called [n], whatever its description. *)
Definition isBuiltInNamed (n : string) (command : CommandInfo) : Prop :=
  isBuiltIn command = Some true /\ name command = n.

End Spec.

(** ** Concrete sessions *)

Module Examples.
Import JS Autocomplete.

(** No session is active. *)
Definition blankStore : StoreState :=
  {| currentSessionId := None;
     messages := ∅;
     sessions := [];
     sessionActivityPhase := None |}.

(** No session is active, and the activity map holds [busy] under the
    empty session id. *)
Definition strayBusyStore : StoreState :=
  {| currentSessionId := None;
     messages := ∅;
     sessions := [];
     sessionActivityPhase := Some {[ "" := "busy" ]} |}.

(** Session [s1]: a user message, an assistant reply, a pending revert,
    nothing running. *)
Definition revertedSession : StoreState :=
  {| currentSessionId := Some "s1";
     messages := {[ "s1" := [ {| messageId := "m1"; role := RoleUser |};
                              {| messageId := "m2"; role := RoleAssistant |} ] ]};
     sessions := [ {| id := "s1"; revertMessageID := Some "m1" |} ];
     sessionActivityPhase := Some {[ "s1" := "idle" ]} |}.

(** Session [s2]: one user message, the assistant still answering. *)
Definition busySession : StoreState :=
  {| currentSessionId := Some "s2";
     messages := {[ "s2" := [ {| messageId := "m1"; role := RoleUser |} ] ]};
     sessions := [ {| id := "s2"; revertMessageID := None |} ];
     sessionActivityPhase := Some {[ "s2" := "busy" ]} |}.

(** A dynamic catalog that shadows the built-in [revert]. *)
Definition shadowingCatalog : list ApiCommand :=
  [ {| apiName := "revert"; apiDescription := Some "Project rollback";
       apiAgent := Some "build"; apiModel := None |};
    {| apiName := "deploy"; apiDescription := None;
       apiAgent := None; apiModel := None |} ].

(** Three visible commands with the highlight on the entry [i]. *)
Definition threeCommands (i : Z) : Selection :=
  {| commands := [ builtIn "clear" "Clear current session";
                   builtIn "compact" "Compact session history";
                   builtIn "summarize" "Generate a summary of the current session" ];
     selectedIndex := i |}.

(** An attempt made while no session is active. *)
Definition orphanAttempt : Store.Attempt :=
  {| Store.attemptCommand := "clear";
     Store.attemptSession := None;
     Store.attemptTime := 1700000000000;
     Store.attemptDispatch := fun _ _ => Fulfilled tt |}.

(** Two attempts on session [s1]: a [clear] that succeeds and a [compact]
    the server refuses. *)
Definition mixedAttempts : list Store.Attempt :=
  [ {| Store.attemptCommand := "clear";
       Store.attemptSession := Some "s1";
       Store.attemptTime := 1700000000000;
       Store.attemptDispatch := fun _ _ => Fulfilled tt |};
    {| Store.attemptCommand := "compact";
       Store.attemptSession := Some "s1";
       Store.attemptTime := 1700000000500;
       Store.attemptDispatch :=
         fun _ _ => Rejected (Store.Error "HTTP 500: Internal Server Error") |} ].

End Examples.

(** * Properties *)

Import JS.

(** ** Availability evaluation *)

Section Availability.
Import Autocomplete Spec Examples.

Lemma selector_sessionId (state : StoreState) :
  selectedSessionId (selector state) = currentSessionId state.
Proof. reflexivity. Qed.

Lemma selector_hasMessages (state : StoreState) :
  hasMessagesInCurrentSession (selector state)
  = (0 <? length (sessionMessagesOf (selector state) state))%nat.
Proof.
  unfold selector, sessionMessagesOf; simpl.
  destruct (truthyOpt (currentSessionId state)); [|reflexivity].
  destruct (messages state !! default "" (currentSessionId state)); reflexivity.
Qed.

(** The component's predicate computes the specification's table on the
    snapshot it reads. *)
Lemma isCommandAvailable_refines (command : CommandInfo) (state : StoreState) :
  isCommandAvailable (selector state) state command
  = isAvailable command (snapshotOf state).
Proof.
  unfold isCommandAvailable, isAvailable.
  rewrite !selector_hasMessages.
  unfold snapshotOf; rewrite selector_sessionId.
  set (ms := sessionMessagesOf (selector state) state).
  destruct (isBuiltIn command) as [[|]|]; cbn -[String.eqb]; try reflexivity.
  repeat (match goal with
          | |- context [if ?b then _ else _] =>
              lazymatch b with
              | String.eqb _ _ => destruct b eqn:?
              | orb (String.eqb _ _) (String.eqb _ _) => destruct b eqn:?
              end
          end; cbn -[String.eqb]); try reflexivity.
  - destruct ms; reflexivity.
  - destruct (sessionActivityPhase state) as [m|]; simpl; [|reflexivity].
    destruct (m !! orString (currentSessionId state) "") as [phase|]; [|reflexivity].
    destruct (String.eqb phase "busy"); reflexivity.
  - destruct (last ms) as [m|]; [destruct (role m)|]; reflexivity.
Qed.

Lemma eqb_gated_false (n g : string) :
  ~ In n gatedNames -> In g gatedNames -> String.eqb n g = false.
Proof.
  intros Hn Hg. apply String.eqb_neq. intros ->. exact (Hn Hg).
Qed.

Lemma isAvailable_ungated (command : CommandInfo) (snap : Snapshot) :
  ~ In (name command) gatedNames -> isAvailable command snap = true.
Proof.
  intros Hn. unfold isAvailable.
  destruct (isBuiltIn command) as [[|]|]; try reflexivity.
  cbv zeta.
  rewrite !(eqb_gated_false (name command)) by (assumption || (cbn; tauto)).
  reflexivity.
Qed.

(** C1.  Availability evaluation is [true] for a command that is not
    built-in; for a built-in command it follows the name table over the
    snapshot ([init]: no message; [summarize], [clear], [compact]: some
    message; [revert], [undo]: more than one message; [unrevert], [redo]: a
    pending revert; [abort]: a busy activity phase; [edit]: some message and
    the last one from the user; any other name: [true]); and it is a
    function of the command and the snapshot alone, so identical inputs give
    identical results. *)
Theorem isCommandAvailable_table (command : CommandInfo) (state : StoreState) :
  let snap := snapshotOf state in
  let available := isCommandAvailable (selector state) state command in
  (isBuiltIn command <> Some true -> available = true) /\
  (isBuiltIn command = Some true ->
     (name command = "init" -> (available = true <-> messageCount snap = 0)) /\
     (name command = "summarize" -> (available = true <-> 0 < messageCount snap)) /\
     (name command = "revert" \/ name command = "undo" ->
        (available = true <-> 1 < messageCount snap)) /\
     (name command = "unrevert" \/ name command = "redo" ->
        (available = true <-> hasPendingRevert snap = true)) /\
     (name command = "abort" -> (available = true <-> activityPhase snap = busy)) /\
     (name command = "edit" ->
        (available = true <-> 0 < messageCount snap /\ lastMessageRole snap = user)) /\
     (name command = "clear" \/ name command = "compact" ->
        (available = true <-> 0 < messageCount snap)) /\
     (~ In (name command) gatedNames -> available = true)) /\
  (forall state' : StoreState,
     snapshotOf state' = snap ->
     isCommandAvailable (selector state') state' command = available).
Proof.
  intros snap available. subst available.
  rewrite isCommandAvailable_refines. fold snap.
  split; [|split].
  - intros Hb. unfold isAvailable.
    destruct (isBuiltIn command) as [[|]|]; congruence.
  - intros Hb.
    pose proof (isAvailable_ungated command snap) as Hother.
    unfold isAvailable in *. rewrite Hb in *. cbv zeta in *.
    repeat apply conj; try exact Hother;
      (intros [Hn|Hn] || intros Hn); rewrite Hn; clear Hother;
      cbn [String.eqb Ascii.eqb Bool.eqb orb].
    + apply Nat.eqb_eq.
    + apply Nat.ltb_lt.
    + apply Nat.ltb_lt.
    + apply Nat.ltb_lt.
    + reflexivity.
    + reflexivity.
    + destruct (activityPhase snap); split; congruence.
    + rewrite andb_true_iff, Nat.ltb_lt.
      destruct (lastMessageRole snap); intuition congruence.
    + apply Nat.ltb_lt.
    + apply Nat.ltb_lt.
  - intros state' Heq. rewrite isCommandAvailable_refines, Heq. reflexivity.
Qed.

(** C1 at [revertedSession] (two messages, the last from the assistant):
    the built-in [revert] is available. *)
Lemma isCommandAvailable_table_witness :
  isCommandAvailable (selector revertedSession) revertedSession
    (builtIn "revert" "Revert session to previous state") = true.
Proof.
  destruct (isCommandAvailable_table
              (builtIn "revert" "Revert session to previous state")
              revertedSession) as (_ & Hbuiltin & _).
  destruct (Hbuiltin eq_refl) as (_ & _ & Hrevert & _).
  apply Hrevert; [left; reflexivity|].
  vm_compute. constructor.
Defined.

End Availability.

(** ** The direct HTTP client's error path *)

Section ApiErrors.
Import Api.

(** Whatever the body holds, [handleApiError] rejects with the status
    line: the error built from the body is thrown inside the [try] and
    replaced by the [catch]. *)
Lemma handleApiError_status_line (response : Response) :
  handleApiError response = Rejected (Error (fallbackMessage response)).
Proof.
  unfold handleApiError.
  destruct (json response) as [errorData|e]; [|reflexivity].
  destruct errorData; cbn; try reflexivity.
  all: repeat match goal with
       | |- context [if ?b then _ else _] => destruct b; cbn
       end; reflexivity.
Qed.

Lemma checked_not_ok (response : Response) :
  ok response = false ->
  checked response = Rejected (Error (fallbackMessage response)).
Proof.
  intros Hok. unfold checked. rewrite Hok. cbn.
  rewrite handleApiError_status_line. reflexivity.
Qed.

(** Every operation of the client answers a non-ok response with the
    status line, for every body. *)
Lemma operations_not_ok (fetch : Request -> Completion Thrown Response)
    (response : Response) (sessionId messageId content : string) :
  (forall request, fetch request = Fulfilled response) ->
  ok response = false ->
  editMessage fetch sessionId messageId content
    = Rejected (Error (fallbackMessage response)) /\
  clearSession fetch sessionId = Rejected (Error (fallbackMessage response)) /\
  compactSession fetch sessionId = Rejected (Error (fallbackMessage response)).
Proof.
  intros Hfetch Hok.
  unfold editMessage, clearSession, compactSession.
  rewrite !Hfetch. cbn. rewrite checked_not_ok by assumption. auto.
Qed.

(** C2.  On a [404] whose body is [{"message": "Session not found"}] the
    documented message is the body's [message] field, but [editMessage],
    [clearSession] and [compactSession] all reject with
    ["HTTP 404: Not Found"]: the extracted field is never the message of
    the error raised. *)
Theorem operations_drop_body_message :
  let fetch := fun _ : Request => Fulfilled notFound in
  documentedMessage notFound = JString "Session not found" /\
  editMessage fetch "s1" "m1" "hello" = Rejected (Error "HTTP 404: Not Found") /\
  clearSession fetch "s1" = Rejected (Error "HTTP 404: Not Found") /\
  compactSession fetch "s1" = Rejected (Error "HTTP 404: Not Found") /\
  Error "HTTP 404: Not Found" <> ErrorOf (documentedMessage notFound).
Proof.
  cbv zeta.
  destruct (operations_not_ok (fun _ => Fulfilled notFound) notFound "s1" "m1" "hello")
    as (He & Hc & Hk); [reflexivity | reflexivity |].
  split; [reflexivity|].
  split; [exact He|]. split; [exact Hc|]. split; [exact Hk|].
  discriminate.
Qed.

End ApiErrors.

(** ** The catalog merge *)

Section Merge.
Import Autocomplete Spec Examples.

Lemma mapSet_keys (key : string) (value : CommandInfo) (m : CommandMap) (k : string) :
  In k (map fst (mapSet key value m)) <-> k = key \/ In k (map fst m).
Proof.
  induction m as [|[k0 v0] rest IH]; cbn.
  - intuition congruence.
  - destruct (String.eqb_spec k0 key) as [->|Hne]; cbn.
    + intuition congruence.
    + rewrite IH. intuition congruence.
Qed.

Lemma mapSet_NoDup (key : string) (value : CommandInfo) (m : CommandMap) :
  List.NoDup (map fst m) -> List.NoDup (map fst (mapSet key value m)).
Proof.
  induction m as [|[k0 v0] rest IH]; cbn; intros Hnd.
  - constructor; [intros []|constructor].
  - inversion Hnd as [|? ? Hnotin Hrest]; subst.
    destruct (String.eqb_spec k0 key) as [->|Hne]; cbn.
    + constructor; assumption.
    + constructor; [|auto].
      rewrite mapSet_keys. intros [->|Hin]; [congruence|contradiction].
Qed.

Lemma mapSet_keyed (value : CommandInfo) (m : CommandMap) :
  keyed m -> keyed (mapSet (name value) value m).
Proof.
  unfold keyed. induction m as [|[k0 v0] rest IH]; cbn; intros Hk.
  - repeat constructor.
  - inversion Hk as [|? ? Hhead Hrest]; subst. cbn in Hhead.
    destruct (String.eqb_spec k0 (name value)) as [Heq|Hne].
    + constructor; [exact Heq|assumption].
    + constructor; [exact Hhead|auto].
Qed.

Lemma mapGet_mapSet (key : string) (value : CommandInfo) (m : CommandMap) (k : string) :
  mapGet k (mapSet key value m)
  = if String.eqb key k then Some value else mapGet k m.
Proof.
  induction m as [|[k0 v0] rest IH]; cbn.
  - reflexivity.
  - destruct (String.eqb_spec k0 key) as [->|Hne]; cbn.
    + destruct (String.eqb key k); reflexivity.
    + rewrite IH. destruct (String.eqb_spec k0 k) as [Heq|Hne']; [|reflexivity].
      destruct (String.eqb_spec key k) as [Heq'|_]; congruence.
Qed.

Lemma setEach_NoDup (cmds : list CommandInfo) (m : CommandMap) :
  List.NoDup (map fst m) -> List.NoDup (map fst (setEach cmds m)).
Proof.
  revert m. induction cmds as [|c cmds IH]; cbn; intros m Hnd; [assumption|].
  apply IH, mapSet_NoDup, Hnd.
Qed.

Lemma setEach_keyed (cmds : list CommandInfo) (m : CommandMap) :
  keyed m -> keyed (setEach cmds m).
Proof.
  revert m. induction cmds as [|c cmds IH]; cbn; intros m Hk; [assumption|].
  apply IH, mapSet_keyed, Hk.
Qed.

Lemma setEach_get (cmds : list CommandInfo) (m : CommandMap) (n : string) :
  mapGet n (setEach cmds m)
  = fold_left (fun found c => if String.eqb (name c) n then Some c else found)
              cmds (mapGet n m).
Proof.
  revert m. induction cmds as [|c cmds IH]; cbn; intros m; [reflexivity|].
  rewrite IH, mapGet_mapSet. reflexivity.
Qed.

Lemma fold_found_some (cmds : list CommandInfo) (n : string) (found : option CommandInfo) :
  (exists c, In c cmds /\ name c = n) ->
  fold_left (fun found c => if String.eqb (name c) n then Some c else found) cmds found
  = lastNamed n cmds.
Proof.
  unfold lastNamed. generalize (@None CommandInfo) as other. revert found.
  induction cmds as [|c cmds IH]; cbn; intros found other (x & Hin & Hname).
  - contradiction.
  - destruct (String.eqb_spec (name c) n) as [Heq|Hne].
    + clear. revert c. induction cmds as [|y cmds IH']; cbn; intros c; [reflexivity|].
      destruct (String.eqb (name y) n); apply IH'.
    + apply IH. destruct Hin as [->|Hin]; [congruence|eauto].
Qed.

Lemma lastNamed_In (cmds : list CommandInfo) (n : string) (c : CommandInfo) :
  lastNamed n cmds = Some c -> In c cmds /\ name c = n.
Proof.
  unfold lastNamed.
  assert (H : forall found,
             fold_left (fun found c => if String.eqb (name c) n then Some c else found)
                       cmds found = Some c ->
             found = Some c \/ (In c cmds /\ name c = n)).
  { induction cmds as [|y cmds IH]; cbn; intros found Hf; [auto|].
    destruct (IH _ Hf) as [Hy|[Hin Hn]]; [|tauto].
    destruct (String.eqb_spec (name y) n) as [Heq|Hne]; [|auto].
    injection Hy as ->. tauto. }
  intros Hf. destruct (H None Hf) as [Hnone|Hres]; [discriminate|exact Hres].
Qed.

Lemma lastNamed_defined (cmds : list CommandInfo) (n : string) (c : CommandInfo) :
  In c cmds -> name c = n -> lastNamed n cmds <> None.
Proof.
  unfold lastNamed. intros Hin Hname.
  assert (H : forall l found,
             found <> None \/ In c l ->
             fold_left (fun found c => if String.eqb (name c) n then Some c else found)
                       l found <> None).
  { induction l as [|y l IH]; cbn; intros found Hor.
    - destruct Hor as [Hf|[]]. exact Hf.
    - apply IH. destruct Hor as [Hf|[->|Hl]].
      + left. destruct (String.eqb (name y) n); [discriminate|exact Hf].
      + left. rewrite Hname, String.eqb_refl. discriminate.
      + right. exact Hl. }
  apply H. right. exact Hin.
Qed.

Lemma mapGet_keyed_names (m : CommandMap) (n : string) :
  keyed m -> List.NoDup (map fst m) ->
  entriesNamed n (mapValues m)
  = match mapGet n m with Some c => [c] | None => [] end.
Proof.
  unfold keyed, entriesNamed, mapValues.
  induction m as [|[k0 v0] rest IH]; cbn; intros Hk Hnd; [reflexivity|].
  inversion Hk as [|? ? Hhead Hrest]; subst. cbn in Hhead. subst k0.
  inversion Hnd as [|? ? Hnotin Hnd']; subst.
  destruct (String.eqb_spec (name v0) n) as [Heq|Hne].
  - f_equal. rewrite IH by assumption.
    destruct (mapGet n rest) as [c|] eqn:Hget; [|reflexivity].
    exfalso. apply Hnotin. subst n.
    clear -Hget. induction rest as [|[k1 v1] rest IH]; cbn in *; [discriminate|].
    destruct (String.eqb_spec k1 (name v0)) as [->|Hne]; [auto|auto].
  - apply IH; assumption.
Qed.

Lemma keyed_names (m : CommandMap) :
  keyed m -> map name (mapValues m) = map fst m.
Proof.
  unfold keyed, mapValues. induction 1 as [|[k v] rest Hhead _ IH]; cbn; [reflexivity|].
  cbn in Hhead. congruence.
Qed.

(** *** Where the entries of the merge come from *)

Lemma mapSet_In (key : string) (value : CommandInfo) (m : CommandMap)
    (kv : string * CommandInfo) :
  In kv (mapSet key value m) -> kv = (key, value) \/ In kv m.
Proof.
  induction m as [|[k0 v0] rest IH]; cbn.
  - intros [<-|[]]. auto.
  - destruct (String.eqb_spec k0 key) as [->|Hne]; cbn.
    + intros [<-|Hin]; auto.
    + intros [<-|Hin]; [auto|]. destruct (IH Hin); auto.
Qed.

Lemma setEach_In (cmds : list CommandInfo) (m : CommandMap)
    (kv : string * CommandInfo) :
  In kv (setEach cmds m) -> In (snd kv) cmds \/ In kv m.
Proof.
  revert m. induction cmds as [|c cmds IH]; cbn; intros m Hin; [auto|].
  destruct (IH _ Hin) as [Hc|Hm]; [auto|].
  destruct (mapSet_In _ _ _ _ Hm) as [->|Hm']; cbn; auto.
Qed.

Lemma setEach_keys (cmds : list CommandInfo) (m : CommandMap) (k : string) :
  In k (map fst (setEach cmds m)) <-> In k (map name cmds) \/ In k (map fst m).
Proof.
  revert m. induction cmds as [|c cmds IH]; cbn; intros m; [tauto|].
  rewrite IH, mapSet_keys. intuition congruence.
Qed.

Lemma mergeCommands_In (builtIns customCommands : list CommandInfo) (c : CommandInfo) :
  In c (mergeCommands builtIns customCommands) ->
  In c builtIns \/ In c customCommands.
Proof.
  unfold mergeCommands, mapValues. intros Hin.
  apply in_map_iff in Hin. destruct Hin as ([k v] & <- & Hin). cbn.
  destruct (setEach_In _ _ _ Hin) as [Hc|Hin']; [auto|].
  destruct (setEach_In _ _ _ Hin') as [Hb|[]]; auto.
Qed.

Lemma mergeCommands_named (builtIns customCommands : list CommandInfo) (b : CommandInfo) :
  In b builtIns ->
  exists c, In c (mergeCommands builtIns customCommands) /\ name c = name b.
Proof.
  intros Hb.
  assert (Hk : keyed (setEach customCommands (setEach builtIns []))).
  { apply setEach_keyed, setEach_keyed. constructor. }
  assert (Hin : In (name b) (map fst (setEach customCommands (setEach builtIns [])))).
  { apply setEach_keys. right. apply setEach_keys. left. apply in_map, Hb. }
  apply in_map_iff in Hin. destruct Hin as ([k v] & Hname & Hin). cbn in Hname.
  exists v. split.
  - unfold mergeCommands, mapValues. apply in_map_iff. exists (k, v). auto.
  - unfold keyed in Hk. rewrite List.Forall_forall in Hk.
    specialize (Hk _ Hin). cbn in Hk. congruence.
Qed.

(** C4.  The merged candidates hold at most one command per name; when a
    dynamic command shares its name with a built-in one, exactly one entry
    of that name survives, it is the dynamic catalog's command of that name
    (the one listed last, should the catalog repeat the name), and its
    [isBuiltIn] is [false]. *)
Theorem mergeCommands_dedup (builtIns : list CommandInfo)
    (apiCommands : list ApiCommand) :
  let customCommands := map customCommand apiCommands in
  let merged := mergeCommands builtIns customCommands in
  List.NoDup (map name merged) /\
  (forall (b : CommandInfo) (d : ApiCommand),
     In b builtIns -> In d apiCommands -> name b = apiName d ->
     exists winner : CommandInfo,
       lastNamed (apiName d) customCommands = Some winner /\
       entriesNamed (apiName d) merged = [winner] /\
       isBuiltIn winner = Some false /\
       ((forall d', In d' apiCommands -> apiName d' = apiName d -> d' = d) ->
        winner = customCommand d)).
Proof.
  intros customCommands merged.
  assert (Hk : keyed (setEach customCommands (setEach builtIns []))).
  { apply setEach_keyed, setEach_keyed. constructor. }
  assert (Hnd : List.NoDup (map fst (setEach customCommands (setEach builtIns [])))).
  { apply setEach_NoDup, setEach_NoDup. constructor. }
  split.
  - unfold merged, mergeCommands. rewrite keyed_names by exact Hk. exact Hnd.
  - intros b d _ Hd _.
    assert (Hex : exists c, In c customCommands /\ name c = apiName d).
    { exists (customCommand d). split; [apply in_map, Hd|reflexivity]. }
    destruct (lastNamed (apiName d) customCommands) as [winner|] eqn:Hlast.
    + exists winner. split; [reflexivity|].
      destruct (lastNamed_In _ _ _ Hlast) as [Hin Hname].
      apply in_map_iff in Hin. destruct Hin as (d' & <- & Hd').
      split; [|split; [reflexivity|]].
      * unfold merged, mergeCommands.
        rewrite mapGet_keyed_names by assumption.
        rewrite setEach_get, fold_found_some by exact Hex.
        fold customCommands. rewrite Hlast. reflexivity.
      * intros Huniq. f_equal. apply Huniq; assumption.
    + exfalso. destruct Hex as (c & Hin & Hname).
      exact (lastNamed_defined _ _ c Hin Hname Hlast).
Qed.

(** C4 at a catalog whose [revert] shadows the built-in one: the single
    surviving [revert] is the catalog's. *)
Lemma mergeCommands_dedup_witness :
  entriesNamed "revert"
    (mergeCommands (builtInCommands (selector blankStore))
                   (map customCommand shadowingCatalog))
  = [ {| name := "revert"; description := Some "Project rollback";
         agent := Some "build"; model := None; isBuiltIn := Some false |} ].
Proof.
  destruct (mergeCommands_dedup (builtInCommands (selector blankStore))
              shadowingCatalog) as [_ Hshadow].
  destruct (Hshadow (builtIn "revert" "Revert session to previous state")
              {| apiName := "revert"; apiDescription := Some "Project rollback";
                 apiAgent := Some "build"; apiModel := None |})
    as (winner & Hlast & Hentries & _ & _).
  - vm_compute. tauto.
  - left. reflexivity.
  - reflexivity.
  - injection Hlast as <-. exact Hentries.
Defined.

End Merge.

(** ** The selection state machine *)

Section SelectionMachine.
Import Autocomplete Examples.

Lemma index_in_range {A : Type} (a : list A) (i : Z) :
  (0 <= i < Z.of_nat (length a))%Z -> exists x, index a i = Some x.
Proof.
  intros [Hlo Hhi]. unfold index.
  destruct (Z.ltb_spec i 0) as [Hneg|_]; [lia|].
  destruct (nth_error a (Z.to_nat i)) as [x|] eqn:Hnth; [eauto|].
  apply nth_error_None in Hnth. lia.
Qed.

(** The double remainder of [handleKeyDown] is the mathematical residue. *)
Lemma safeIndex_mod (i n : Z) :
  (0 < n)%Z -> Z.rem (Z.rem i n + n) n = (i mod n)%Z.
Proof.
  intros Hn.
  assert (Hrem : (- n < Z.rem i n)%Z).
  { pose proof (Z.rem_bound_abs i n ltac:(lia)). lia. }
  rewrite Z.rem_mod_nonneg by lia.
  rewrite (Z.rem_eq i n) by lia.
  replace (i - n * (i ÷ n) + n)%Z with (i + (1 - i ÷ n) * n)%Z by ring.
  apply Z.mod_add; lia.
Qed.

(** C7.  With a visible list of length [total > 0] and [selectedIndex] in
    [[0, total)], [ArrowDown] sets the index to [(selectedIndex + 1) mod
    total] and [ArrowUp] to [(selectedIndex - 1 + total) mod total], with
    nothing emitted; on an empty list both keys change nothing. *)
Theorem navigation_wraps (s : Selection) :
  ((0 < total s)%Z -> (0 <= selectedIndex s < total s)%Z ->
   handleKeyDown "ArrowDown" s
     = (withIndex s ((selectedIndex s + 1) mod total s)%Z, []) /\
   handleKeyDown "ArrowUp" s
     = (withIndex s ((selectedIndex s - 1 + total s) mod total s)%Z, [])) /\
  (total s = 0%Z ->
   handleKeyDown "ArrowDown" s = (s, []) /\ handleKeyDown "ArrowUp" s = (s, [])).
Proof.
  unfold handleKeyDown, total, withIndex, setSelectedIndex. cbn [String.eqb Ascii.eqb Bool.eqb].
  split.
  - intros Hpos Hrange.
    destruct (Z.eqb_spec (Z.of_nat (length (commands s))) 0) as [H0|_]; [lia|].
    rewrite !Z.rem_mod_nonneg by lia. split; reflexivity.
  - intros ->. split; reflexivity.
Qed.

(** C8.  On [Enter] or [Tab] an empty visible list changes nothing and
    emits nothing; a list of length [total > 0] emits exactly the command at
    [((selectedIndex mod total) + total) mod total], an index inside
    [[0, total)] whatever [selectedIndex] is, and leaves the state as it
    was. *)
Theorem confirm_emits_safe_index (s : Selection) (key : string) :
  key = "Enter" \/ key = "Tab" ->
  let safeIndex := (((selectedIndex s mod total s) + total s) mod total s)%Z in
  (total s = 0%Z -> handleKeyDown key s = (s, [])) /\
  ((0 < total s)%Z ->
   (0 <= safeIndex < total s)%Z /\
   exists command : CommandInfo,
     index (commands s) safeIndex = Some command /\
     handleKeyDown key s = (s, [CommandSelect command])).
Proof.
  intros Hkey safeIndex.
  assert (Hstep : handleKeyDown key s
                  = if (total s =? 0)%Z then (s, [])
                    else match index (commands s)
                                 (Z.rem (Z.rem (selectedIndex s) (total s) + total s)
                                        (total s)) with
                         | Some command => (s, [CommandSelect command])
                         | None => (s, [])
                         end).
  { unfold handleKeyDown. fold (total s).
    destruct Hkey as [-> | ->]; cbn [String.eqb Ascii.eqb Bool.eqb orb]; reflexivity. }
  split.
  - intros H0. rewrite Hstep, H0. reflexivity.
  - intros Hpos.
    assert (Hsafe : Z.rem (Z.rem (selectedIndex s) (total s) + total s) (total s)
                    = safeIndex).
    { rewrite safeIndex_mod by assumption. unfold safeIndex.
      rewrite Z.add_mod, Z.mod_mod, Z.mod_same, Z.add_0_r, Z.mod_mod by lia.
      reflexivity. }
    assert (Hrange : (0 <= safeIndex < total s)%Z)
      by (unfold safeIndex; apply Z.mod_pos_bound; assumption).
    split; [exact Hrange|].
    destruct (index_in_range (commands s) safeIndex Hrange) as [command Hcmd].
    exists command. split; [exact Hcmd|].
    rewrite Hstep, Hsafe, Hcmd.
    destruct (Z.eqb_spec (total s) 0); [lia|reflexivity].
Qed.

(** C9.  [Escape] calls the close callback whatever the visible list
    holds, the empty list included; a key other than [Escape], [ArrowDown],
    [ArrowUp], [Enter] and [Tab] leaves the state, [selectedIndex] included,
    as it was and emits nothing. *)
Theorem escape_closes_and_other_keys_are_ignored (s : Selection) (key : string) :
  handleKeyDown "Escape" s = (s, [Close]) /\
  (commands s = [] -> handleKeyDown "Escape" s = (s, [Close])) /\
  (key <> "Escape" -> key <> "ArrowDown" -> key <> "ArrowUp" ->
   key <> "Enter" -> key <> "Tab" ->
   handleKeyDown key s = (s, [])).
Proof.
  split; [reflexivity|]. split; [reflexivity|].
  intros Hesc Hdown Hup Henter Htab. unfold handleKeyDown.
  apply String.eqb_neq in Hesc, Hdown, Hup, Henter, Htab.
  rewrite Hesc, Hdown, Hup, Henter, Htab. cbn.
  destruct (Z.of_nat (length (commands s)) =? 0)%Z; reflexivity.
Qed.

(** C7 with three visible commands: down from the last entry wraps to the
    first, up from the first wraps to the last. *)
Lemma navigation_wraps_witness :
  handleKeyDown "ArrowDown" (threeCommands 2) = (threeCommands 0, []) /\
  handleKeyDown "ArrowUp" (threeCommands 0) = (threeCommands 2, []).
Proof.
  split.
  - destruct (navigation_wraps (threeCommands 2)) as [Hmove _].
    destruct Hmove as [Hdown _]; [reflexivity|split; [discriminate|reflexivity]|].
    exact Hdown.
  - destruct (navigation_wraps (threeCommands 0)) as [Hmove _].
    destruct Hmove as [_ Hup]; [reflexivity|split; [discriminate|reflexivity]|].
    exact Hup.
Defined.

(** C8 with three visible commands and the stale index [-1]: [Enter]
    emits the last command and leaves the state alone. *)
Lemma confirm_emits_safe_index_witness :
  handleKeyDown "Enter" (threeCommands (-1))
  = (threeCommands (-1),
     [CommandSelect (builtIn "summarize" "Generate a summary of the current session")]).
Proof.
  destruct (confirm_emits_safe_index (threeCommands (-1)) "Enter"
              (or_introl eq_refl)) as [_ Hemit].
  destruct (Hemit eq_refl) as (_ & command & Hat & Hstep).
  injection Hat as <-. exact Hstep.
Defined.

(** C9 at an empty visible list: a letter key does nothing. *)
Lemma escape_closes_and_other_keys_are_ignored_witness :
  handleKeyDown "a" {| commands := []; selectedIndex := 0 |}
  = ({| commands := []; selectedIndex := 0 |}, []).
Proof.
  destruct (escape_closes_and_other_keys_are_ignored
              {| commands := []; selectedIndex := 0 |} "a") as (_ & _ & Hother).
  apply Hother; discriminate.
Defined.

End SelectionMachine.

(** ** The command history *)

Section History.
Import Store Examples.
Local Open Scope list_scope.

Lemma attempt_active (history : list HistoryEntry) (a : Attempt) :
  attemptActive a = true -> attempt history a = history ++ [entryOf a].
Proof.
  unfold attemptActive, attempt, executeCommand, entryOf, attemptSucceeds.
  cbn. intros ->. cbn.
  destruct (attemptDispatch a (attemptCommand a) (default "" (attemptSession a)));
    reflexivity.
Qed.

Lemma attempt_inactive (history : list HistoryEntry) (a : Attempt) :
  attemptActive a = false -> attempt history a = history.
Proof.
  unfold attemptActive, attempt, executeCommand. cbn. intros ->. reflexivity.
Qed.

Lemma runAttempts_history (history : list HistoryEntry) (attempts : list Attempt) :
  runAttempts history attempts
  = history ++ map entryOf (List.filter attemptActive attempts).
Proof.
  unfold runAttempts. revert history.
  induction attempts as [|a attempts IH]; cbn; intros history.
  - rewrite app_nil_r. reflexivity.
  - rewrite IH. destruct (attemptActive a) eqn:Hactive.
    + rewrite attempt_active by assumption. cbn. rewrite <- app_assoc. reflexivity.
    + rewrite attempt_inactive by assumption. reflexivity.
Qed.

(** C6, as stated, fails: an attempt made with no active session is
    rejected before the history is touched, so after one attempt the log
    holds no entry. *)
Lemma orphan_attempt_leaves_no_entry :
  runAttempts [] [orphanAttempt] = [] /\
  length (runAttempts [] [orphanAttempt]) <> length [orphanAttempt].
Proof.
  split; [reflexivity|]. cbn. discriminate.
Qed.

(** C6, amended.  An attempt made while a session is active appends
    exactly one entry [{command, timestamp, success}] to the history, on
    success and on failure alike, [success] telling which, and a failure is
    rethrown as it was raised; an attempt made with no active session is
    rejected with ["No active session"] and appends nothing.  So a run of
    attempts extends the history by one entry per attempt made with an
    active session, in order, and never alters an entry already there: after
    [N] attempts, all with an active session, the log has grown by exactly
    [N] entries. *)
Theorem history_records_each_active_attempt
    (history : list HistoryEntry) (attempts : list Attempt) :
  runAttempts history attempts
    = history ++ map entryOf (List.filter attemptActive attempts) /\
  (forallb attemptActive attempts = true ->
   length (runAttempts history attempts) = length history + length attempts) /\
  (forall (dispatch : string -> string -> Completion Thrown unit) (now : Z)
          (commandName : string) (state : State),
     truthyOpt (currentSessionId state) = true ->
     let outcome := dispatch commandName (default "" (currentSessionId state)) in
     executeCommand dispatch now commandName state
     = (appendHistory
          {| command := commandName; timestamp := now;
             success := match outcome with Fulfilled _ => true | Rejected _ => false end |}
          state,
        match outcome with
        | Fulfilled _ => Fulfilled tt
        | Rejected error => Rejected error
        end)) /\
  (forall (dispatch : string -> string -> Completion Thrown unit) (now : Z)
          (commandName : string) (state : State),
     truthyOpt (currentSessionId state) = false ->
     executeCommand dispatch now commandName state
     = (state, Rejected (Error "No active session"))).
Proof.
  split; [apply runAttempts_history|]. split; [|split].
  - intros Hall. rewrite runAttempts_history.
    rewrite length_app, length_map. f_equal.
    induction attempts as [|a attempts IH]; cbn in *; [reflexivity|].
    apply andb_true_iff in Hall. destruct Hall as [-> Hrest]. cbn.
    f_equal. apply IH, Hrest.
  - intros dispatch now commandName state Hactive outcome.
    unfold executeCommand. rewrite Hactive. cbn. subst outcome.
    destruct (dispatch commandName (default "" (currentSessionId state)));
      reflexivity.
  - intros dispatch now commandName state Hinactive.
    unfold executeCommand. rewrite Hinactive. reflexivity.
Qed.

(** C6, amended, at a [clear] that succeeds followed by a [compact] that
    fails, both on an active session: two entries, in order. *)
Lemma history_records_each_active_attempt_witness :
  runAttempts [] mixedAttempts
  = [ {| command := "clear"; timestamp := 1700000000000; success := true |};
      {| command := "compact"; timestamp := 1700000000500; success := false |} ] /\
  length (runAttempts [] mixedAttempts) = 2.
Proof.
  destruct (history_records_each_active_attempt [] mixedAttempts)
    as (Hlog & Hcount & _).
  split; [exact Hlog|]. exact (Hcount eq_refl).
Defined.

End History.

(** ** The visible list *)

Section Visible.
Import Autocomplete Spec Examples.
Local Open Scope list_scope.

Lemma truthy_false (s : string) : truthy s = false <-> s = "".
Proof.
  unfold truthy. destruct (String.eqb_spec s ""); cbn; split; congruence.
Qed.

Lemma gate_In (sel : Selected) (state : StoreState) (searchQuery : string)
    (candidates : list CommandInfo) (c : CommandInfo) :
  In c (gate sel state searchQuery candidates) <->
  In c candidates /\
  (searchQuery = "" \/ matchesQuery searchQuery c = true) /\
  (hasMessagesInCurrentSession sel = false \/ name c <> "init") /\
  isCommandAvailable sel state c = true.
Proof.
  unfold gate. rewrite !filter_In.
  assert (Hq : In c (if truthy searchQuery
                     then List.filter (matchesQuery searchQuery) candidates
                     else candidates)
               <-> In c candidates /\
                   (searchQuery = "" \/ matchesQuery searchQuery c = true)).
  { destruct (truthy searchQuery) eqn:Ht.
    - rewrite filter_In. split; [tauto|]. intros [Hin [Hq|Hm]]; [|tauto].
      apply truthy_false in Hq. congruence.
    - apply truthy_false in Ht. tauto. }
  rewrite Hq, orb_true_iff, negb_true_iff, negb_true_iff, String.eqb_neq.
  tauto.
Qed.

Lemma builtInCommands_names (sel : Selected) (c : CommandInfo) :
  In c (builtInCommands sel) ->
  isBuiltIn c = Some true /\ In (name c) gatedNames /\
  (name c = "init" -> hasMessagesInCurrentSession sel = false).
Proof.
  unfold builtInCommands.
  destruct (hasMessagesInCurrentSession sel); cbn;
    intros H; repeat (destruct H as [<-|H]; [cbn; intuition discriminate|]);
    destruct H.
Qed.

Lemma insertBy_In (cmp : CommandInfo -> CommandInfo -> Z) (x : CommandInfo)
    (l : list CommandInfo) (c : CommandInfo) :
  In c (insertBy cmp x l) <-> c = x \/ In c l.
Proof.
  induction l as [|y l IH]; cbn.
  - intuition congruence.
  - destruct (cmp x y <=? 0)%Z; cbn; [|rewrite IH]; intuition congruence.
Qed.

Lemma sortBy_In (cmp : CommandInfo -> CommandInfo -> Z) (l : list CommandInfo)
    (c : CommandInfo) :
  In c (sortBy cmp l) <-> In c l.
Proof.
  unfold sortBy. induction l as [|y l IH]; cbn; [tauto|].
  rewrite insertBy_In, IH. intuition congruence.
Qed.

Lemma gate_builtIns_nonempty (sel : Selected) (state : StoreState) :
  gate sel state "" (builtInCommands sel) <> [].
Proof.
  intros Hnil.
  assert (Hsome : exists c, In c (gate sel state "" (builtInCommands sel))).
  { destruct (hasMessagesInCurrentSession sel) eqn:Hhas.
    - exists (builtIn "summarize" "Generate a summary of the current session").
      apply gate_In. unfold builtInCommands, isCommandAvailable.
      rewrite Hhas. cbn. intuition discriminate.
    - exists (builtIn "init" "Create/update AGENTS.md file").
      apply gate_In. unfold builtInCommands, isCommandAvailable.
      rewrite Hhas. cbn. intuition discriminate. }
  destruct Hsome as [c Hc]. rewrite Hnil in Hc. exact Hc.
Qed.

(** C5, as stated, fails: with the catalog fetch failing and the query
    [zzz], which no built-in matches, the visible list is empty. *)
Lemma fallback_can_be_empty :
  loadCommands codeUnitCompare (Rejected tt) (selector blankStore) blankStore "zzz"
  = Fulfilled [].
Proof. vm_compute. reflexivity. Qed.

(** C5, amended.  When the catalog fetch fails, the merger does not reject:
    it ends with the visible list set to exactly the built-in commands that
    match the query (every one of them when the query is empty) and pass
    the availability gate; with an empty query that list is never empty. *)
Theorem fallback_serves_gated_builtIns {E : Type}
    (localeCompare : string -> string -> Z) (error : E)
    (state : StoreState) (searchQuery : string) :
  let sel := selector state in
  exists visible : list CommandInfo,
    loadCommands localeCompare (Rejected error) sel state searchQuery
      = Fulfilled visible /\
    (forall c : CommandInfo,
       In c visible <->
       In c (builtInCommands sel) /\
       (searchQuery = "" \/ matchesQuery searchQuery c = true) /\
       isCommandAvailable sel state c = true) /\
    (searchQuery = "" -> visible <> []).
Proof.
  intros sel.
  exists (gate sel state searchQuery (builtInCommands sel)).
  split; [reflexivity|]. split.
  - intros c. rewrite gate_In. split; [tauto|].
    intros (Hin & Hq & Hav). repeat split; try assumption.
    destruct (String.eqb_spec (name c) "init") as [Hinit|Hne]; [|auto].
    left. apply (builtInCommands_names sel c Hin), Hinit.
  - intros ->. apply gate_builtIns_nonempty.
Qed.

(** C5, amended, at [revertedSession] with an empty query: the fallback
    list is not empty. *)
Lemma fallback_serves_gated_builtIns_witness :
  exists visible : list CommandInfo,
    loadCommands codeUnitCompare (Rejected tt) (selector revertedSession)
      revertedSession "" = Fulfilled visible /\
    visible <> [].
Proof.
  destruct (fallback_serves_gated_builtIns codeUnitCompare tt revertedSession "")
    as (visible & Hload & _ & Hnonempty).
  exists visible. split; [exact Hload|]. exact (Hnonempty eq_refl).
Defined.

(** *** Ordering of the list the [try] branch produces *)

Section Sorted.
Variable localeCompare : string -> string -> Z.
Hypothesis localeCompare_total :
  forall a b, (0 < localeCompare a b)%Z -> (localeCompare b a <= 0)%Z.
Hypothesis localeCompare_trans :
  forall a b c, (localeCompare a b <= 0)%Z -> (localeCompare b c <= 0)%Z ->
                (localeCompare a c <= 0)%Z.
Variable searchQuery : string.

Let cmp := compareCommands localeCompare searchQuery.
Let before (a b : CommandInfo) : Prop := (cmp a b <= 0)%Z.

Lemma cmp_total (a b : CommandInfo) : (0 < cmp a b)%Z -> before b a.
Proof.
  unfold before, cmp, compareCommands.
  destruct (startsWith (toLowerCase (name a)) (toLowerCase searchQuery)),
           (startsWith (toLowerCase (name b)) (toLowerCase searchQuery));
    cbn; try lia; apply localeCompare_total.
Qed.

Lemma cmp_trans (a b c : CommandInfo) : before a b -> before b c -> before a c.
Proof.
  unfold before, cmp, compareCommands.
  destruct (startsWith (toLowerCase (name a)) (toLowerCase searchQuery)),
           (startsWith (toLowerCase (name b)) (toLowerCase searchQuery)),
           (startsWith (toLowerCase (name c)) (toLowerCase searchQuery));
    cbn; try lia; apply localeCompare_trans.
Qed.

Lemma insertBy_pairwise (x : CommandInfo) (l : list CommandInfo) :
  pairwise before l -> pairwise before (insertBy cmp x l).
Proof.
  induction l as [|y l IH]; cbn; intros Hl.
  - split; constructor.
  - destruct Hl as [Hy Hl].
    destruct (Z.leb_spec (cmp x y) 0) as [Hle|Hgt]; cbn.
    + split; [|split; assumption].
      constructor; [exact Hle|].
      eapply List.Forall_impl; [|exact Hy]. intros z Hz. eapply cmp_trans; eassumption.
    + split; [|auto].
      apply List.Forall_forall. intros z Hz. apply insertBy_In in Hz.
      destruct Hz as [->|Hz]; [apply cmp_total, Hgt|].
      rewrite List.Forall_forall in Hy. apply Hy, Hz.
Qed.

Lemma sortBy_pairwise (l : list CommandInfo) : pairwise before (sortBy cmp l).
Proof.
  unfold sortBy. induction l as [|y l IH]; cbn; [exact I|].
  apply insertBy_pairwise, IH.
Qed.

Lemma before_inOrder (a b : CommandInfo) :
  before a b -> inOrder (fun x y => (localeCompare x y <= 0)%Z) searchQuery a b.
Proof.
  unfold before, cmp, compareCommands, inOrder, startsWithQuery.
  destruct (startsWith (toLowerCase (name a)) (toLowerCase searchQuery)),
           (startsWith (toLowerCase (name b)) (toLowerCase searchQuery));
    cbn; intros H; split; intros; try congruence; try lia.
Qed.

Lemma pairwise_impl (R R' : CommandInfo -> CommandInfo -> Prop) (l : list CommandInfo) :
  (forall a b, R a b -> R' a b) -> pairwise R l -> pairwise R' l.
Proof.
  intros Himp. induction l as [|y l IH]; cbn; [tauto|].
  intros [Hy Hl]. split; [|auto]. eapply List.Forall_impl; [|exact Hy]. auto.
Qed.

(** When the catalog fetch succeeds, the visible list holds exactly the
    gated candidates of the merge, prefix matches before the other matches
    and each group ascending under the collation. *)
Lemma loadCommands_sorted {E : Type} (apiCommands : list ApiCommand)
    (sel : Selected) (state : StoreState) :
  exists visible : list CommandInfo,
    loadCommands localeCompare (@Fulfilled E _ apiCommands) sel state searchQuery
      = Fulfilled visible /\
    ordered (fun x y => (localeCompare x y <= 0)%Z) searchQuery visible /\
    (forall c, In c visible <->
               In c (gate sel state searchQuery
                       (mergeCommands (builtInCommands sel)
                                      (map customCommand apiCommands)))).
Proof.
  eexists. split; [reflexivity|]. split.
  - eapply pairwise_impl; [exact before_inOrder|]. apply sortBy_pairwise.
  - intros c. apply sortBy_In.
Qed.

End Sorted.

(** [codeUnitCompare] is a total preorder, as a collation must be. *)
Lemma codeUnitCompare_total (a b : string) :
  (0 < codeUnitCompare a b)%Z -> (codeUnitCompare b a <= 0)%Z.
Proof.
  unfold codeUnitCompare. rewrite (String.compare_antisym a b).
  destruct (String.compare b a); cbn; lia.
Qed.

Lemma string_compare_trans (a b c : string) :
  String.compare a b <> Gt -> String.compare b c <> Gt -> String.compare a c <> Gt.
Proof.
  revert b c. induction a as [|x a IH]; intros [|y b] [|z c]; cbn; try congruence.
  unfold Ascii.compare.
  destruct (N.compare_spec (N_of_ascii x) (N_of_ascii y)) as [Hxy|Hxy|Hxy];
    destruct (N.compare_spec (N_of_ascii y) (N_of_ascii z)) as [Hyz|Hyz|Hyz];
    destruct (N.compare_spec (N_of_ascii x) (N_of_ascii z)) as [Hxz|Hxz|Hxz];
    try congruence; try lia.
  apply IH.
Qed.

Lemma codeUnitCompare_trans (a b c : string) :
  (codeUnitCompare a b <= 0)%Z -> (codeUnitCompare b c <= 0)%Z ->
  (codeUnitCompare a c <= 0)%Z.
Proof.
  unfold codeUnitCompare.
  pose proof (string_compare_trans a b c) as Htrans.
  destruct (String.compare a b), (String.compare b c), (String.compare a c);
    cbn; intros; try lia; exfalso; apply Htrans; congruence.
Qed.

(** The ordering of the [try] branch at [revertedSession], query [re],
    under code-unit collation and a catalog that shadows [revert]. *)
Lemma loadCommands_sorted_witness :
  exists visible : list CommandInfo,
    loadCommands codeUnitCompare (@Fulfilled unit _ shadowingCatalog)
      (selector revertedSession) revertedSession "re" = Fulfilled visible /\
    ordered (fun x y => (codeUnitCompare x y <= 0)%Z) "re" visible.
Proof.
  destruct (loadCommands_sorted codeUnitCompare codeUnitCompare_total
              codeUnitCompare_trans "re" (E := unit) shadowingCatalog
              (selector revertedSession) revertedSession)
    as (visible & Hload & Hordered & _).
  exists visible. split; [exact Hload|exact Hordered].
Defined.

(** C3.  In [revertedSession] with the query [re], a failing catalog fetch
    leaves the visible list in catalog order, [summarize] (a match in the
    description only) ahead of [revert], and [revert] ahead of [redo]: it is
    not ordered.  The same input with a fetch that succeeds gives [redo],
    [revert], then the other matches. *)
Theorem fallback_list_is_unsorted :
  let le := fun a b : string => (codeUnitCompare a b <= 0)%Z in
  let sel := selector revertedSession in
  exists fallback sorted : list CommandInfo,
    loadCommands codeUnitCompare (Rejected tt) sel revertedSession "re"
      = Fulfilled fallback /\
    map name fallback = ["summarize"; "revert"; "unrevert"; "redo"; "clear"] /\
    ~ ordered le "re" fallback /\
    loadCommands codeUnitCompare (@Fulfilled unit _ []) sel revertedSession "re"
      = Fulfilled sorted /\
    map name sorted = ["redo"; "revert"; "clear"; "summarize"; "unrevert"] /\
    ordered le "re" sorted.
Proof.
  cbv zeta.
  eexists. eexists.
  split; [vm_compute; reflexivity|].
  split; [reflexivity|].
  split.
  - intros [Hfirst _]. inversion Hfirst as [|? ? [Hprefix _] _]; subst.
    specialize (Hprefix eq_refl). discriminate Hprefix.
  - split; [vm_compute; reflexivity|]. split; [reflexivity|].
    unfold ordered; cbn [pairwise].
    repeat split; repeat constructor; vm_compute; congruence.
Qed.

(** *** No active session *)

Lemma no_session_selector (state : StoreState) :
  currentSessionId state = None ->
  selector state = {| hasMessagesInCurrentSession := false; selectedSessionId := None |}.
Proof. unfold selector. intros ->. reflexivity. Qed.

Lemma no_session_gated (state : StoreState) (command : CommandInfo) :
  currentSessionId state = None ->
  isBuiltIn command = Some true ->
  In (name command) gatedNames ->
  isCommandAvailable (selector state) state command
  = String.eqb (name command) "init"
    || (String.eqb (name command) "abort" && busyUnder "" state).
Proof.
  intros Hnone Hb Hin.
  rewrite (no_session_selector state Hnone).
  unfold isCommandAvailable, sessionMessagesOf, sessionOf, busyUnder.
  rewrite Hb. cbn in Hin |- *.
  repeat (destruct Hin as [<-|Hin]; [reflexivity|]). destruct Hin.
Qed.

(** C10, as stated, fails: with no active session [abort] looks its phase
    up under the empty session id, so a [busy] recorded there makes it
    available and visible. *)
Lemma no_session_abort_can_be_available :
  currentSessionId strayBusyStore = None /\
  isCommandAvailable (selector strayBusyStore) strayBusyStore
    (builtIn "abort" "Interrupt current operation") = true /\
  loadCommands codeUnitCompare (Rejected tt) (selector strayBusyStore)
    strayBusyStore ""
  = Fulfilled [builtIn "init" "Create/update AGENTS.md file";
               builtIn "abort" "Interrupt current operation"].
Proof. vm_compute. auto. Qed.

(** C10, amended.  With no active session ([currentSessionId] is [null])
    availability evaluation returns a value for every command, reading the
    session as having no message and no pending revert, and the activity
    phase as the one recorded under the empty session id: of the gated
    built-in commands [init] is available, [summarize], [revert], [undo],
    [unrevert], [redo], [edit], [clear] and [compact] are not, and [abort]
    is available exactly when [busy] is recorded under the empty id.
    Whether the catalog fetch succeeds or fails, every built-in command of
    the visible list is then [init] (or [abort], in that one case), and with
    an empty query a command named [init] is visible. *)
Theorem no_session_gating {E : Type} (localeCompare : string -> string -> Z)
    (listCommands : Completion E (list ApiCommand))
    (state : StoreState) (searchQuery : string) :
  currentSessionId state = None ->
  let sel := selector state in
  (forall command : CommandInfo,
     isBuiltIn command = Some true ->
     In (name command) gatedNames ->
     isCommandAvailable sel state command
     = String.eqb (name command) "init"
       || (String.eqb (name command) "abort" && busyUnder "" state)) /\
  exists visible : list CommandInfo,
    loadCommands localeCompare listCommands sel state searchQuery = Fulfilled visible /\
    (forall c : CommandInfo,
       In c visible -> isBuiltIn c = Some true ->
       name c = "init" \/ (name c = "abort" /\ busyUnder "" state = true)) /\
    (searchQuery = "" -> exists c, In c visible /\ name c = "init").
Proof.
  intros Hnone sel.
  assert (Hgated : forall command, isBuiltIn command = Some true ->
                     In (name command) gatedNames ->
                     isCommandAvailable sel state command
                     = String.eqb (name command) "init"
                       || (String.eqb (name command) "abort" && busyUnder "" state))
    by (intros; apply no_session_gated; assumption).
  assert (Hhas : hasMessagesInCurrentSession sel = false)
    by (unfold sel; rewrite no_session_selector by assumption; reflexivity).
  assert (Hinit : In (builtIn "init" "Create/update AGENTS.md file") (builtInCommands sel))
    by (unfold builtInCommands; rewrite Hhas; left; reflexivity).
  assert (Hbuiltin : forall c, In c (builtInCommands sel) ->
                       isCommandAvailable sel state c = true ->
                       name c = "init" \/ (name c = "abort" /\ busyUnder "" state = true)).
  { intros c Hin Hav.
    destruct (builtInCommands_names sel c Hin) as (Hb & Hg & _).
    rewrite (Hgated c Hb Hg) in Hav.
    apply orb_true_iff in Hav. destruct Hav as [Hav|Hav].
    - left. apply String.eqb_eq, Hav.
    - right. apply andb_true_iff in Hav. destruct Hav as [Hab Hbusy].
      split; [apply String.eqb_eq, Hab|exact Hbusy]. }
  assert (Hvisible : forall c, isCommandAvailable sel state c = true ->
                       (isBuiltIn c = Some true -> In c (builtInCommands sel)) ->
                       isBuiltIn c = Some true ->
                       name c = "init" \/ (name c = "abort" /\ busyUnder "" state = true))
    by (intros c Hav Hfrom Hb; apply Hbuiltin; auto).
  split; [exact Hgated|].
  destruct listCommands as [apiCommands|error].
  - eexists. split; [reflexivity|]. split.
    + intros c Hin Hb. apply sortBy_In, gate_In in Hin.
      destruct Hin as (Hin & _ & _ & Hav).
      apply Hvisible; [exact Hav| |exact Hb]. intros _.
      destruct (mergeCommands_In _ _ _ Hin) as [Hbi|Hcu]; [exact Hbi|].
      apply in_map_iff in Hcu. destruct Hcu as (d & <- & _). discriminate Hb.
    + intros ->.
      destruct (mergeCommands_named (builtInCommands sel)
                  (map customCommand apiCommands) _ Hinit) as (c & Hin & Hname).
      exists c. split; [|exact Hname].
      apply sortBy_In, gate_In. repeat split; auto.
      destruct (mergeCommands_In _ _ _ Hin) as [Hbi|Hcu].
      * destruct (builtInCommands_names sel c Hbi) as (Hb & Hg & _).
        rewrite (Hgated c Hb Hg), Hname. reflexivity.
      * apply in_map_iff in Hcu. destruct Hcu as (d & <- & _). reflexivity.
  - eexists. split; [reflexivity|]. split.
    + intros c Hin Hb. apply gate_In in Hin.
      destruct Hin as (Hin & _ & _ & Hav). apply Hvisible; auto.
    + intros ->. exists (builtIn "init" "Create/update AGENTS.md file").
      split; [|reflexivity].
      apply gate_In. repeat split; auto.
      rewrite Hgated; [reflexivity|reflexivity|cbn; auto].
Qed.

(** C10, amended, at [blankStore] with an empty query and a failing
    fetch: [init] is visible. *)
Lemma no_session_gating_witness :
  exists visible : list CommandInfo,
    loadCommands codeUnitCompare (Rejected tt) (selector blankStore) blankStore ""
      = Fulfilled visible /\
    exists c, In c visible /\ name c = "init".
Proof.
  destruct (no_session_gating codeUnitCompare (Rejected tt) blankStore "" eq_refl)
    as (_ & visible & Hload & _ & Hinit).
  exists visible. split; [exact Hload|]. exact (Hinit eq_refl).
Defined.

End Visible.

(** * Further properties of the sources *)

(** ** The visible list, on both branches of [loadCommands] *)

Section VisibleList.
Import Autocomplete Spec Examples.
Local Open Scope list_scope.

Variable localeCompare : string -> string -> Z.

Lemma insertBy_Permutation (cmp : CommandInfo -> CommandInfo -> Z) (x : CommandInfo)
    (l : list CommandInfo) :
  Permutation (insertBy cmp x l) (x :: l).
Proof.
  induction l as [|y l IH]; cbn; [reflexivity|].
  destruct (cmp x y <=? 0)%Z; [reflexivity|].
  rewrite IH. apply perm_swap.
Qed.

Lemma sortBy_Permutation (cmp : CommandInfo -> CommandInfo -> Z) (l : list CommandInfo) :
  Permutation (sortBy cmp l) l.
Proof.
  unfold sortBy. induction l as [|y l IH]; cbn; [reflexivity|].
  rewrite insertBy_Permutation. apply perm_skip, IH.
Qed.

(** Every load ends with the visible list set to a rearrangement of the
    gated candidates. *)
Lemma loadCommands_gate {E : Type} (listCommands : Completion E (list ApiCommand))
    (sel : Selected) (state : StoreState) (searchQuery : string) :
  exists visible : list CommandInfo,
    loadCommands localeCompare listCommands sel state searchQuery = Fulfilled visible /\
    Permutation visible (gate sel state searchQuery (candidatesOf listCommands sel)).
Proof.
  destruct listCommands as [apiCommands|error]; eexists; (split; [reflexivity|]).
  - apply sortBy_Permutation.
  - reflexivity.
Qed.

Lemma filter_names_NoDup (f : CommandInfo -> bool) (l : list CommandInfo) :
  List.NoDup (map name l) -> List.NoDup (map name (List.filter f l)).
Proof.
  induction l as [|y l IH]; cbn; intros Hnd; [constructor|].
  inversion Hnd as [|? ? Hnotin Hrest]; subst.
  destruct (f y); cbn; [|auto].
  constructor; [|auto].
  intros Hin. apply Hnotin. apply in_map_iff in Hin.
  destruct Hin as (c & Hname & Hc). apply filter_In in Hc.
  apply in_map_iff. exists c. tauto.
Qed.

Lemma builtInCommands_NoDup (sel : Selected) :
  List.NoDup (map name (builtInCommands sel)).
Proof.
  unfold builtInCommands.
  destruct (hasMessagesInCurrentSession sel); cbn;
    repeat (constructor; [cbn; intuition discriminate|]); constructor.
Qed.

Lemma candidatesOf_NoDup {E : Type} (listCommands : Completion E (list ApiCommand))
    (sel : Selected) :
  List.NoDup (map name (candidatesOf listCommands sel)).
Proof.
  destruct listCommands as [apiCommands|error]; cbn.
  - unfold mergeCommands. rewrite keyed_names.
    + apply setEach_NoDup, setEach_NoDup. constructor.
    + apply setEach_keyed, setEach_keyed. constructor.
  - apply builtInCommands_NoDup.
Qed.

(** The rows of the dropdown are keyed by [command.name]: whether the
    catalog fetch succeeds or fails, no two visible commands share a name. *)
Theorem visible_names_distinct {E : Type}
    (listCommands : Completion E (list ApiCommand))
    (sel : Selected) (state : StoreState) (searchQuery : string) :
  exists visible : list CommandInfo,
    loadCommands localeCompare listCommands sel state searchQuery = Fulfilled visible /\
    List.NoDup (map name visible).
Proof.
  destruct (loadCommands_gate listCommands sel state searchQuery)
    as (visible & Hload & Hperm).
  exists visible. split; [exact Hload|].
  eapply Permutation_NoDup.
  - symmetry. apply Permutation_map, Hperm.
  - unfold gate. do 2 apply filter_names_NoDup.
    destruct (truthy searchQuery); [apply filter_names_NoDup|];
      apply candidatesOf_NoDup.
Qed.

(** Whatever the catalog holds, every visible command passes the
    availability check, matches a non-empty query in its name or its
    description, and is not named [init] once the session has messages: a
    dynamic command called [init] is suppressed like the built-in one. *)
Theorem visible_commands_are_gated {E : Type}
    (listCommands : Completion E (list ApiCommand))
    (sel : Selected) (state : StoreState) (searchQuery : string) :
  exists visible : list CommandInfo,
    loadCommands localeCompare listCommands sel state searchQuery = Fulfilled visible /\
    forall c : CommandInfo,
      In c visible ->
      isCommandAvailable sel state c = true /\
      (searchQuery = "" \/ matchesQuery searchQuery c = true) /\
      (hasMessagesInCurrentSession sel = true -> name c <> "init").
Proof.
  destruct (loadCommands_gate listCommands sel state searchQuery)
    as (visible & Hload & Hperm).
  exists visible. split; [exact Hload|].
  intros c Hin. eapply Permutation_in in Hin; [|exact Hperm].
  apply gate_In in Hin. destruct Hin as (_ & Hq & Hinit & Hav).
  repeat split; try assumption.
  intros Hhas. destruct Hinit as [Hno|Hne]; congruence.
Qed.

(** The merge keeps, for every name of the dynamic catalog, the command
    listed last under it. *)
Lemma mergeCommands_custom (builtIns customCommands : list CommandInfo) (c : CommandInfo) :
  lastNamed (name c) customCommands = Some c ->
  In c (mergeCommands builtIns customCommands).
Proof.
  intros Hlast.
  destruct (lastNamed_In _ _ _ Hlast) as [Hin _].
  assert (Hk : keyed (setEach customCommands (setEach builtIns [])))
    by (apply setEach_keyed, setEach_keyed; constructor).
  assert (Hnd : List.NoDup (map fst (setEach customCommands (setEach builtIns []))))
    by (apply setEach_NoDup, setEach_NoDup; constructor).
  assert (Hentries : entriesNamed (name c) (mergeCommands builtIns customCommands) = [c]).
  { unfold mergeCommands. rewrite mapGet_keyed_names by assumption.
    rewrite setEach_get, fold_found_some by eauto. rewrite Hlast. reflexivity. }
  assert (Hc : In c (entriesNamed (name c) (mergeCommands builtIns customCommands)))
    by (rewrite Hentries; left; reflexivity).
  apply filter_In in Hc. tauto.
Qed.

Lemma lastNamed_unique (customCommands : list CommandInfo) (c : CommandInfo) :
  In c customCommands ->
  (forall c', In c' customCommands -> name c' = name c -> c' = c) ->
  lastNamed (name c) customCommands = Some c.
Proof.
  intros Hin Huniq.
  destruct (lastNamed (name c) customCommands) as [w|] eqn:Hlast.
  - destruct (lastNamed_In _ _ _ Hlast) as [Hw Hname]. f_equal. auto.
  - exfalso. exact (lastNamed_defined _ _ c Hin eq_refl Hlast).
Qed.

(** Dynamic commands are never gated by the session: when the fetch
    succeeds, a catalog command whose name no other catalog entry repeats is
    visible in every store state as soon as it matches the query, the one
    exception being a command named [init] while the session has messages. *)
Theorem dynamic_command_is_visible {E : Type} (apiCommands : list ApiCommand)
    (d : ApiCommand) (sel : Selected) (state : StoreState) (searchQuery : string) :
  In d apiCommands ->
  (forall d', In d' apiCommands -> apiName d' = apiName d -> d' = d) ->
  searchQuery = "" \/ matchesQuery searchQuery (customCommand d) = true ->
  hasMessagesInCurrentSession sel = false \/ apiName d <> "init" ->
  exists visible : list CommandInfo,
    loadCommands localeCompare (@Fulfilled E _ apiCommands) sel state searchQuery
      = Fulfilled visible /\
    In (customCommand d) visible.
Proof.
  intros Hd Huniq Hq Hinit.
  eexists. split; [reflexivity|].
  apply sortBy_In, gate_In.
  split; [|split; [exact Hq|split; [exact Hinit|reflexivity]]].
  apply mergeCommands_custom, lastNamed_unique.
  - apply in_map, Hd.
  - intros c' Hc' Hname. apply in_map_iff in Hc'.
    destruct Hc' as (d' & <- & Hd'). f_equal. apply Huniq; assumption.
Qed.

Lemma candidatesOf_named {E : Type} (listCommands : Completion E (list ApiCommand))
    (sel : Selected) (b : CommandInfo) :
  In b (builtInCommands sel) ->
  exists c, In c (candidatesOf listCommands sel) /\ name c = name b /\
            (isBuiltIn c = Some true -> In c (builtInCommands sel)).
Proof.
  intros Hb. destruct listCommands as [apiCommands|error]; cbn.
  - destruct (mergeCommands_named (builtInCommands sel)
                (map customCommand apiCommands) b Hb) as (c & Hin & Hname).
    exists c. repeat split; try assumption. intros Hbuilt.
    destruct (mergeCommands_In _ _ _ Hin) as [Hbi|Hcu]; [exact Hbi|].
    apply in_map_iff in Hcu. destruct Hcu as (d & <- & _). discriminate Hbuilt.
  - exists b. repeat split; auto.
Qed.

Lemma builtIn_flag_available (sel : Selected) (state : StoreState) (c : CommandInfo) :
  In c (builtInCommands sel) ->
  (name c = "init" -> isCommandAvailable sel state c = true) /\
  (name c = "summarize" ->
   isCommandAvailable sel state c = hasMessagesInCurrentSession sel).
Proof.
  unfold builtInCommands, isCommandAvailable.
  destruct (hasMessagesInCurrentSession sel) eqn:Hhas; cbn;
    intros H; repeat (destruct H as [<-|H]; [cbn; split; intros; congruence|]);
    destruct H.
Qed.

(** With an empty query the visible list is never empty, on either branch
    and whatever the catalog and the store hold; so the placeholder row
    shown for the list of a completed load reads [No commands found]: its
    two other texts need an empty query and an empty list together. *)
Theorem empty_query_list_is_never_empty {E : Type}
    (listCommands : Completion E (list ApiCommand))
    (sel : Selected) (state : StoreState) (searchQuery : string) :
  exists visible : list CommandInfo,
    loadCommands localeCompare listCommands sel state searchQuery = Fulfilled visible /\
    (searchQuery = "" -> visible <> []) /\
    (forall (loading : bool) (text : string),
       placeholder loading visible searchQuery (selectedSessionId sel) = Some text ->
       text = "No commands found").
Proof.
  destruct (loadCommands_gate listCommands sel state searchQuery)
    as (visible & Hload & Hperm).
  exists visible. split; [exact Hload|].
  assert (Hnonempty : searchQuery = "" -> visible <> []).
  { intros -> Hnil. subst visible. apply Permutation_nil in Hperm.
    assert (Hsome : exists c, In c (gate sel state "" (candidatesOf listCommands sel))).
    { destruct (hasMessagesInCurrentSession sel) eqn:Hhas.
      - destruct (candidatesOf_named listCommands sel
                    (builtIn "summarize" "Generate a summary of the current session"))
          as (c & Hin & Hname & Hfrom).
        { unfold builtInCommands. rewrite Hhas. left. reflexivity. }
        exists c. apply gate_In. repeat split; auto.
        + right. rewrite Hname. discriminate.
        + destruct (isBuiltIn c) as [[|]|] eqn:Hb;
            [|unfold isCommandAvailable; rewrite Hb; reflexivity..].
          destruct (builtIn_flag_available sel state c (Hfrom eq_refl)) as [_ Hsum].
          rewrite (Hsum Hname). exact Hhas.
      - destruct (candidatesOf_named listCommands sel
                    (builtIn "init" "Create/update AGENTS.md file"))
          as (c & Hin & Hname & Hfrom).
        { unfold builtInCommands. rewrite Hhas. left. reflexivity. }
        exists c. apply gate_In. repeat split; auto.
        destruct (isBuiltIn c) as [[|]|] eqn:Hb;
          [|unfold isCommandAvailable; rewrite Hb; reflexivity..].
        destruct (builtIn_flag_available sel state c (Hfrom eq_refl)) as [Hi _].
        exact (Hi Hname). }
    destruct Hsome as [c Hc]. rewrite Hperm in Hc. exact Hc. }
  split; [exact Hnonempty|].
  intros loading text. unfold placeholder, emptyMessage.
  destruct loading; [discriminate|].
  destruct visible as [|c rest]; cbn; [|discriminate].
  destruct (truthy searchQuery) eqn:Hq; [congruence|].
  apply truthy_false in Hq. exfalso. exact (Hnonempty Hq eq_refl).
Qed.

Lemma toLowerCase_empty (q : string) : toLowerCase q = "" <-> q = "".
Proof. destruct q; cbn; split; congruence. Qed.


Lemma sortBy_ext (cmp cmp' : CommandInfo -> CommandInfo -> Z) (l : list CommandInfo) :
  (forall a b, cmp a b = cmp' a b) -> sortBy cmp l = sortBy cmp' l.
Proof.
  intros Hext. unfold sortBy. induction l as [|y l IH]; cbn; [reflexivity|].
  rewrite IH. generalize (fold_right (insertBy cmp') [] l) as sorted.
  induction sorted as [|z sorted IHs]; cbn; [reflexivity|].
  rewrite Hext, IHs. reflexivity.
Qed.

(** The query is compared in lower case only: two queries that differ in
    the case of their letters give the same visible list, in the same
    order, on both branches. *)
Theorem query_case_is_ignored {E : Type}
    (listCommands : Completion E (list ApiCommand))
    (sel : Selected) (state : StoreState) (query query' : string) :
  toLowerCase query = toLowerCase query' ->
  loadCommands localeCompare listCommands sel state query
  = loadCommands localeCompare listCommands sel state query'.
Proof.
  intros Hlower.
  assert (Htruthy : truthy query = truthy query').
  { destruct (truthy query) eqn:Hq, (truthy query') eqn:Hq'; try reflexivity.
    - apply truthy_false in Hq'. subst query'. cbn in Hlower.
      apply (proj1 (toLowerCase_empty _)) in Hlower. subst query. discriminate Hq.
    - apply truthy_false in Hq. subst query. cbn in Hlower. symmetry in Hlower.
      apply (proj1 (toLowerCase_empty _)) in Hlower. subst query'. discriminate Hq'. }
  assert (Hgate : forall l, gate sel state query l = gate sel state query' l).
  { intros l. unfold gate. rewrite Htruthy. do 2 f_equal.
    destruct (truthy query'); [|reflexivity].
    apply filter_ext. intros c. unfold matchesQuery. rewrite Hlower. reflexivity. }
  unfold loadCommands. rewrite Hgate.
  destruct listCommands as [apiCommands|error]; cbn; [|reflexivity].
  rewrite Hgate. f_equal. apply sortBy_ext.
  intros a b. unfold compareCommands. rewrite Hlower. reflexivity.
Qed.





End VisibleList.

Section VisibleListExamples.
Import Autocomplete Spec Examples.

(** At [busySession] (one message, nothing to revert) the catalog's own
    [revert] is offered all the same. *)
Lemma dynamic_command_is_visible_witness :
  exists visible : list CommandInfo,
    loadCommands codeUnitCompare (@Fulfilled unit _ shadowingCatalog)
      (selector busySession) busySession "rev" = Fulfilled visible /\
    In {| name := "revert"; description := Some "Project rollback";
          agent := Some "build"; model := None; isBuiltIn := Some false |} visible.
Proof.
  apply (dynamic_command_is_visible codeUnitCompare (E := unit) shadowingCatalog
           {| apiName := "revert"; apiDescription := Some "Project rollback";
              apiAgent := Some "build"; apiModel := None |}).
  - left. reflexivity.
  - intros d' [<-|[<-|[]]]; [reflexivity|discriminate].
  - right. reflexivity.
  - right. discriminate.
Defined.

(** The queries [RE] and [re] at [revertedSession]. *)
Lemma query_case_is_ignored_witness :
  loadCommands codeUnitCompare (@Fulfilled unit _ shadowingCatalog)
    (selector revertedSession) revertedSession "RE"
  = loadCommands codeUnitCompare (@Fulfilled unit _ shadowingCatalog)
      (selector revertedSession) revertedSession "re".
Proof.
  apply (query_case_is_ignored codeUnitCompare). reflexivity.
Defined.

End VisibleListExamples.

(** ** The component under a run of events *)

Section SelectionRuns.
Import Autocomplete Examples.
Local Open Scope list_scope.
Local Open Scope Z_scope.

Lemma wrap_succ (n i : Z) :
  0 <= i < n -> Z.rem (i + 1) n = if i + 1 =? n then 0 else i + 1.
Proof.
  intros Hi. rewrite Z.rem_mod_nonneg by lia.
  destruct (Z.eqb_spec (i + 1) n) as [->|Hne].
  - apply Z.mod_same. lia.
  - apply Z.mod_small. lia.
Qed.

Lemma wrap_pred (n i : Z) :
  0 <= i < n -> Z.rem (i - 1 + n) n = if i =? 0 then n - 1 else i - 1.
Proof.
  intros Hi. rewrite Z.rem_mod_nonneg by lia.
  destruct (Z.eqb_spec i 0) as [->|Hne].
  - replace (0 - 1 + n) with (n - 1) by ring. apply Z.mod_small. lia.
  - replace (i - 1 + n) with (i - 1 + 1 * n) by ring.
    rewrite Z.mod_add by lia. apply Z.mod_small. lia.
Qed.

Lemma up_down_index (n i : Z) :
  0 <= i < n -> Z.rem (Z.rem (i + 1) n - 1 + n) n = i.
Proof.
  intros Hi. rewrite (wrap_succ n i Hi).
  destruct (Z.eqb_spec (i + 1) n) as [Heq|Hne].
  - rewrite wrap_pred by lia. cbn. lia.
  - rewrite wrap_pred by lia.
    destruct (Z.eqb_spec (i + 1) 0); lia.
Qed.

Lemma down_up_index (n i : Z) :
  0 <= i < n -> Z.rem (Z.rem (i - 1 + n) n + 1) n = i.
Proof.
  intros Hi. rewrite (wrap_pred n i Hi).
  destruct (Z.eqb_spec i 0) as [Heq|Hne].
  - rewrite wrap_succ by lia.
    destruct (Z.eqb_spec (n - 1 + 1) n); lia.
  - rewrite wrap_succ by lia.
    destruct (Z.eqb_spec (i - 1 + 1) n); lia.
Qed.

Lemma arrowDown_state (s : Selection) :
  0 < total s ->
  handleKeyDown "ArrowDown" s
  = (withIndex s (Z.rem (selectedIndex s + 1) (total s)), []).
Proof.
  intros Hpos. unfold handleKeyDown. fold (total s). cbn [String.eqb Ascii.eqb Bool.eqb].
  destruct (Z.eqb_spec (total s) 0); [lia|reflexivity].
Qed.

Lemma arrowUp_state (s : Selection) :
  0 < total s ->
  handleKeyDown "ArrowUp" s
  = (withIndex s (Z.rem (selectedIndex s - 1 + total s) (total s)), []).
Proof.
  intros Hpos. unfold handleKeyDown. fold (total s). cbn [String.eqb Ascii.eqb Bool.eqb].
  destruct (Z.eqb_spec (total s) 0); [lia|reflexivity].
Qed.

Lemma withIndex_same (s : Selection) : withIndex s (selectedIndex s) = s.
Proof. destruct s; reflexivity. Qed.

Lemma handleKeyDown_commands (key : string) (s : Selection) :
  commands (fst (handleKeyDown key s)) = commands s.
Proof.
  unfold handleKeyDown.
  repeat match goal with
         | |- context [if ?b then _ else _] => destruct b
         | |- context [match ?o with Some _ => _ | None => _ end] => destruct o
         end; reflexivity.
Qed.

Lemma handleKeyDown_settled (key : string) (s : Selection) :
  settled s -> settled (fst (handleKeyDown key s)).
Proof.
  intros Hs. unfold handleKeyDown. fold (total s).
  destruct (String.eqb key "Escape"); [exact Hs|].
  destruct (Z.eqb_spec (total s) 0) as [H0|Hpos]; [exact Hs|].
  assert (Hrange : 0 <= selectedIndex s < total s).
  { destruct Hs as [[Hnil _]|Hr]; [|exact Hr].
    unfold total in Hpos. rewrite Hnil in Hpos. cbn in Hpos. lia. }
  destruct (String.eqb key "ArrowDown").
  { right. cbn. fold (total s). rewrite wrap_succ by exact Hrange.
    change (total (setSelectedIndex s _)) with (total s).
    destruct (Z.eqb_spec (selectedIndex s + 1) (total s)); lia. }
  destruct (String.eqb key "ArrowUp").
  { right. cbn. fold (total s). rewrite wrap_pred by exact Hrange.
    change (total (setSelectedIndex s _)) with (total s).
    destruct (Z.eqb_spec (selectedIndex s) 0); lia. }
  destruct (String.eqb key "Enter" || String.eqb key "Tab"); [|exact Hs].
  destruct (index (commands s) _); exact Hs.
Qed.

Lemma step_settled (s : Selection) (e : Event) :
  settled s -> settled (fst (step s e)).
Proof.
  intros Hs. destruct e as [key|i|i|cmds]; cbn.
  - apply handleKeyDown_settled, Hs.
  - unfold onMouseEnter.
    destruct (nth_error (commands s) i) as [c|] eqn:Hnth; [|exact Hs].
    right. cbn. unfold total. cbn.
    assert (Hlt : (i < length (commands s))%nat)
      by (apply nth_error_Some; congruence).
    lia.
  - exact Hs.
  - destruct cmds as [|c cmds]; [left; split; reflexivity|].
    right. unfold total. cbn. lia.
Qed.

(** From mounting on, through key presses, pointer events and reloads of
    the list in any order, the highlight stays on a row of the current list
    (on [0] while the list is empty). *)
Theorem run_keeps_highlight_on_a_row (events : list Event) :
  let s := fst (run mounted events) in
  (commands s = [] /\ selectedIndex s = 0) \/ 0 <= selectedIndex s < total s.
Proof.
  cbv zeta. change (settled (fst (run mounted events))).
  assert (Hgen : forall s, settled s -> settled (fst (run s events))).
  { induction events as [|e rest IH]; intros s Hs; [exact Hs|].
    cbn. pose proof (step_settled s e Hs) as Hstep.
    destruct (step s e) as [s1 out1]. cbn in Hstep.
    specialize (IH s1 Hstep). destruct (run s1 rest) as [s2 out2]. exact IH. }
  apply Hgen. left. split; reflexivity.
Qed.

Lemma step_emits_displayed (s : Selection) (e : Event) (c : CommandInfo) :
  In (CommandSelect c) (snd (step s e)) -> In c (commands s).
Proof.
  destruct e as [key|i|i|cmds]; cbn; try tauto.
  - unfold handleKeyDown.
    destruct (String.eqb key "Escape"); [cbn; intuition discriminate|].
    destruct (Z.of_nat (length (commands s)) =? 0); [intros []|].
    destruct (String.eqb key "ArrowDown"); [intros []|].
    destruct (String.eqb key "ArrowUp"); [intros []|].
    destruct (String.eqb key "Enter" || String.eqb key "Tab"); [|intros []].
    unfold index.
    destruct (_ <? 0); [intros []|].
    destruct (nth_error (commands s) _) as [c'|] eqn:Hnth; [|intros []].
    cbn. intros [Heq|[]]. injection Heq as ->. eapply nth_error_In, Hnth.
  - unfold onClick.
    destruct (nth_error (commands s) i) as [c'|] eqn:Hnth; [|intros []].
    cbn. intros [Heq|[]]. injection Heq as ->. eapply nth_error_In, Hnth.
Qed.

Lemma step_commands (s : Selection) (e : Event) :
  commands (fst (step s e)) = commands s \/
  exists cmds, e = CommandsLoaded cmds /\ commands (fst (step s e)) = cmds.
Proof.
  destruct e as [key|i|i|cmds]; cbn.
  - left. apply handleKeyDown_commands.
  - left. unfold onMouseEnter. destruct (nth_error (commands s) i); reflexivity.
  - left. reflexivity.
  - right. eauto.
Qed.

Lemma run_emits_displayed (s : Selection) (events : list Event) (c : CommandInfo) :
  In (CommandSelect c) (snd (run s events)) ->
  In c (commands s) \/ exists cmds, In (CommandsLoaded cmds) events /\ In c cmds.
Proof.
  revert s. induction events as [|e rest IH]; intros s; cbn; [intros []|].
  pose proof (step_emits_displayed s e c) as Hemit.
  pose proof (step_commands s e) as Hcmds.
  destruct (step s e) as [s1 out1]. cbn in Hemit, Hcmds.
  specialize (IH s1). destruct (run s1 rest) as [s2 out2]. cbn in IH |- *.
  intros Hin. apply in_app_or in Hin. destruct Hin as [Hin|Hin]; [auto|].
  destruct (IH Hin) as [Hs1|(cmds & Hload & Hc)].
  - destruct Hcmds as [Hsame|(cmds & -> & Hnew)].
    + left. rewrite <- Hsame. exact Hs1.
    + right. exists cmds. split; [left; reflexivity|]. rewrite <- Hnew. exact Hs1.
  - right. exists cmds. split; [right; exact Hload|exact Hc].
Qed.

(** The component only ever hands over a command it has displayed: every
    command emitted during a run of events belongs to a list that a
    completed load put on screen during that run. *)
Theorem emitted_commands_were_displayed (events : list Event) (c : CommandInfo) :
  In (CommandSelect c) (snd (run mounted events)) ->
  exists cmds : list CommandInfo, In (CommandsLoaded cmds) events /\ In c cmds.
Proof.
  intros Hin. destruct (run_emits_displayed mounted events c Hin) as [[]|Hex].
  exact Hex.
Qed.

(** [Enter] and [Tab] select what a click on the highlighted row selects:
    with the highlight on row [i], the command of that row, with no change
    of state. *)
Theorem enter_selects_the_highlighted_row (s : Selection) (key : string)
    (i : nat) (c : CommandInfo) :
  key = "Enter" \/ key = "Tab" ->
  selectedIndex s = Z.of_nat i ->
  nth_error (commands s) i = Some c ->
  handleKeyDown key s = (s, [CommandSelect c]) /\
  onClick i s = [CommandSelect c].
Proof.
  intros Hkey Hi Hnth.
  assert (Hlt : (i < length (commands s))%nat)
    by (apply nth_error_Some; congruence).
  split; [|unfold onClick; rewrite Hnth; reflexivity].
  unfold handleKeyDown. fold (total s).
  assert (Hpos : 0 < total s) by (unfold total; lia).
  assert (Hsafe : Z.rem (Z.rem (selectedIndex s) (total s) + total s) (total s)
                  = Z.of_nat i).
  { rewrite safeIndex_mod by exact Hpos. rewrite Hi.
    apply Z.mod_small. unfold total. lia. }
  rewrite Hsafe. unfold index.
  destruct (Z.ltb_spec (Z.of_nat i) 0); [lia|].
  rewrite Nat2Z.id, Hnth.
  destruct (Z.eqb_spec (total s) 0); [lia|].
  destruct Hkey as [-> | ->]; reflexivity.
Qed.

(** [ArrowUp] undoes [ArrowDown] and [ArrowDown] undoes [ArrowUp], at the
    ends of the list as anywhere else; and as many [ArrowDown] presses as
    the list has rows bring the highlight back to where it was. *)
Theorem arrows_are_inverse (s : Selection) :
  0 <= selectedIndex s < total s ->
  fst (handleKeyDown "ArrowUp" (fst (handleKeyDown "ArrowDown" s))) = s /\
  fst (handleKeyDown "ArrowDown" (fst (handleKeyDown "ArrowUp" s))) = s /\
  Nat.iter (length (commands s)) (fun t => fst (handleKeyDown "ArrowDown" t)) s = s.
Proof.
  intros Hrange.
  assert (Hpos : 0 < total s) by lia.
  split; [|split].
  - rewrite (arrowDown_state s Hpos). cbn [fst].
    rewrite arrowUp_state by exact Hpos. cbn [fst].
    change (total (withIndex s _)) with (total s).
    unfold withIndex. cbn [commands selectedIndex].
    rewrite up_down_index by exact Hrange. destruct s; reflexivity.
  - rewrite (arrowUp_state s Hpos). cbn [fst].
    rewrite arrowDown_state by exact Hpos. cbn [fst].
    change (total (withIndex s _)) with (total s).
    unfold withIndex. cbn [commands selectedIndex].
    rewrite down_up_index by exact Hrange. destruct s; reflexivity.
  - assert (Hiter : forall k : nat,
               Nat.iter k (fun t => fst (handleKeyDown "ArrowDown" t)) s
               = withIndex s ((selectedIndex s + Z.of_nat k) mod total s)).
    { induction k as [|k IH].
      - cbn. rewrite Z.add_0_r, Z.mod_small by exact Hrange.
        symmetry. apply withIndex_same.
      - cbn [Nat.iter nat_rect]. unfold Nat.iter in IH. rewrite IH.
        rewrite arrowDown_state by exact Hpos. cbn [fst].
        unfold withIndex. cbn [commands selectedIndex]. f_equal.
        change (total {| commands := commands s; selectedIndex := _ |}) with (total s).
        rewrite Z.rem_mod_nonneg
          by (pose proof (Z.mod_pos_bound (selectedIndex s + Z.of_nat k) (total s) Hpos);
              lia).
        rewrite Z.add_mod_idemp_l by lia. f_equal. lia. }
    rewrite Hiter. fold (total s).
    replace (selectedIndex s + total s) with (selectedIndex s + 1 * total s) by ring.
    rewrite Z.mod_add, Z.mod_small by lia. apply withIndex_same.
Qed.

(** A list is loaded, the highlight moved down once, [Enter] pressed: the
    command emitted is one of the loaded list. *)
Lemma emitted_commands_were_displayed_witness :
  exists cmds : list CommandInfo,
    In (CommandsLoaded cmds)
       [CommandsLoaded (commands (threeCommands 0)); KeyDown "ArrowDown"; KeyDown "Enter"] /\
    In (builtIn "compact" "Compact session history") cmds.
Proof.
  apply (emitted_commands_were_displayed
           [CommandsLoaded (commands (threeCommands 0)); KeyDown "ArrowDown";
            KeyDown "Enter"]).
  vm_compute. left. reflexivity.
Defined.

(** Three rows, the highlight on the second: [Tab] and a click on it both
    emit [compact]. *)
Lemma enter_selects_the_highlighted_row_witness :
  handleKeyDown "Tab" (threeCommands 1)
    = (threeCommands 1, [CommandSelect (builtIn "compact" "Compact session history")]) /\
  onClick 1 (threeCommands 1)
    = [CommandSelect (builtIn "compact" "Compact session history")].
Proof.
  apply (enter_selects_the_highlighted_row (threeCommands 1) "Tab" 1%nat).
  - right. reflexivity.
  - reflexivity.
  - reflexivity.
Defined.

(** Three rows, the highlight on the last one. *)
Lemma arrows_are_inverse_witness :
  fst (handleKeyDown "ArrowUp" (fst (handleKeyDown "ArrowDown" (threeCommands 2))))
    = threeCommands 2 /\
  fst (handleKeyDown "ArrowDown" (fst (handleKeyDown "ArrowUp" (threeCommands 2))))
    = threeCommands 2 /\
  Nat.iter 3 (fun t => fst (handleKeyDown "ArrowDown" t)) (threeCommands 2)
    = threeCommands 2.
Proof.
  apply (arrows_are_inverse (threeCommands 2)).
  split; [discriminate|reflexivity].
Defined.

End SelectionRuns.

(** ** Relations between the availability of the built-in commands *)

Section AvailabilityRelations.
Import Autocomplete Spec Examples.

Lemma available_by_name (state : StoreState) (n : string) (command : CommandInfo) :
  isBuiltInNamed n command ->
  isCommandAvailable (selector state) state command
  = isAvailable (builtIn n "") (snapshotOf state).
Proof.
  intros [Hb Hn]. rewrite isCommandAvailable_refines.
  unfold isAvailable. rewrite Hb, Hn. reflexivity.
Qed.

(** For every store, read consistently: [init] is offered exactly when
    [summarize] is not; the aliases agree ([undo] with [revert], [redo]
    with [unrevert], [compact] with [clear]); and whenever [revert] or
    [edit] is offered, so are [clear] and [summarize]. *)
Theorem availability_relations (state : StoreState)
    (init summarize revert undo unrevert redo edit clear compact : CommandInfo) :
  isBuiltInNamed "init" init -> isBuiltInNamed "summarize" summarize ->
  isBuiltInNamed "revert" revert -> isBuiltInNamed "undo" undo ->
  isBuiltInNamed "unrevert" unrevert -> isBuiltInNamed "redo" redo ->
  isBuiltInNamed "edit" edit ->
  isBuiltInNamed "clear" clear -> isBuiltInNamed "compact" compact ->
  let available := isCommandAvailable (selector state) state in
  available init = negb (available summarize) /\
  available undo = available revert /\
  available redo = available unrevert /\
  available compact = available clear /\
  available clear = available summarize /\
  (available revert = true -> available clear = true) /\
  (available edit = true -> available clear = true).
Proof.
  intros Hinit Hsum Hrev Hundo Hunrev Hredo Hedit Hclear Hcompact available.
  subst available. cbv beta.
  rewrite (available_by_name state _ _ Hinit), (available_by_name state _ _ Hsum),
    (available_by_name state _ _ Hrev), (available_by_name state _ _ Hundo),
    (available_by_name state _ _ Hunrev), (available_by_name state _ _ Hredo),
    (available_by_name state _ _ Hedit), (available_by_name state _ _ Hclear),
    (available_by_name state _ _ Hcompact).
  generalize (snapshotOf state). intros [[|[|n]] lastRole pending phase];
    unfold isAvailable; cbn;
    repeat split; intros; try reflexivity; try discriminate; auto.
Qed.

(** The ten built-in commands of the component at [revertedSession]. *)
Lemma availability_relations_witness :
  let available := isCommandAvailable (selector revertedSession) revertedSession in
  available (builtIn "init" "Create/update AGENTS.md file")
    = negb (available (builtIn "summarize" "Generate a summary of the current session")) /\
  available (builtIn "undo" "Undo last action")
    = available (builtIn "revert" "Revert session to previous state") /\
  available (builtIn "redo" "Redo last action")
    = available (builtIn "unrevert" "Undo revert operation") /\
  available (builtIn "compact" "Compact session history")
    = available (builtIn "clear" "Clear current session") /\
  available (builtIn "clear" "Clear current session")
    = available (builtIn "summarize" "Generate a summary of the current session") /\
  (available (builtIn "revert" "Revert session to previous state") = true ->
   available (builtIn "clear" "Clear current session") = true) /\
  (available (builtIn "edit" "Edit last message") = true ->
   available (builtIn "clear" "Clear current session") = true).
Proof.
  apply (availability_relations revertedSession); split; reflexivity.
Defined.

End AvailabilityRelations.

(** ** Icons *)

Section Icons.
Import Autocomplete Spec Examples.

(** Every built-in command of the component has an icon of its own, never
    one of the two generic ones, and the icon goes by the name alone: a
    dynamic command that shadows a built-in is drawn with the built-in's
    icon.  The generic icons tell the two kinds apart: the flashlight is
    drawn for built-in commands only, the command-line glyph for the
    others only. *)
Theorem shadowing_command_keeps_the_icon (sel : Selected) (b : CommandInfo)
    (d : ApiCommand) :
  In b (builtInCommands sel) ->
  apiName d = name b ->
  getCommandIcon (customCommand d) = getCommandIcon b /\
  fst (getCommandIcon b) <> RiFlashlightLine /\
  fst (getCommandIcon b) <> RiCommandLine /\
  (forall c : CommandInfo,
     (fst (getCommandIcon c) = RiFlashlightLine -> isBuiltIn c = Some true) /\
     (fst (getCommandIcon c) = RiCommandLine -> isBuiltIn c <> Some true)).
Proof.
  intros Hb Hname.
  assert (Hcases : getCommandIcon (customCommand d) = getCommandIcon b /\
                   fst (getCommandIcon b) <> RiFlashlightLine /\
                   fst (getCommandIcon b) <> RiCommandLine).
  { unfold getCommandIcon. cbn [name customCommand]. rewrite Hname.
    unfold builtInCommands in Hb.
    destruct (hasMessagesInCurrentSession sel); cbn in Hb;
      repeat (destruct Hb as [<-|Hb]; [cbn; repeat split; discriminate|]);
      destruct Hb. }
  destruct Hcases as (Hsame & Hflash & Hline).
  repeat split; try assumption.
  - unfold getCommandIcon.
    repeat match goal with
           | |- context [if ?t then _ else _] =>
               lazymatch t with
               | default false _ => fail
               | _ => destruct t; [cbn; discriminate|]
               end
           end.
    destruct (isBuiltIn c) as [[|]|]; cbn; congruence.
  - unfold getCommandIcon.
    repeat match goal with
           | |- context [if ?t then _ else _] =>
               lazymatch t with
               | default false _ => fail
               | _ => destruct t; [cbn; discriminate|]
               end
           end.
    destruct (isBuiltIn c) as [[|]|]; cbn; congruence.
Qed.

(** The catalog's [revert] is drawn like the built-in [revert]. *)
Lemma shadowing_command_keeps_the_icon_witness :
  getCommandIcon {| name := "revert"; description := Some "Project rollback";
                    agent := Some "build"; model := None; isBuiltIn := Some false |}
  = (RiArrowGoBackLine, "h-3.5 w-3.5 text-blue-500").
Proof.
  destruct (shadowing_command_keeps_the_icon (selector blankStore)
              (builtIn "revert" "Revert session to previous state")
              {| apiName := "revert"; apiDescription := Some "Project rollback";
                 apiAgent := Some "build"; apiModel := None |})
    as (Hsame & _).
  - vm_compute. tauto.
  - reflexivity.
  - exact Hsame.
Defined.

End Icons.

(** ** The HTTP client: outcomes and addresses *)

Section ApiOutcomes.
Import Api.

(** Each of the four operations sends one request, built from its
    arguments alone, and its outcome is decided by the answer: a rejected
    fetch is passed on as it is; an ok response gives whatever
    [response.json()] gives, a parse failure included; a response that is
    not ok always rejects, with the status line, so a failed response is
    never taken for a result. *)
Theorem operation_outcomes (fetch : Request -> Completion Thrown Response)
    (sessionId messageId content : string) :
  editMessage fetch sessionId messageId content
    = outcomeOf (fetch (editMessageRequest sessionId messageId content)) /\
  clearSession fetch sessionId
    = outcomeOf (fetch (sessionRequest "POST" "clear" sessionId)) /\
  compactSession fetch sessionId
    = outcomeOf (fetch (sessionRequest "POST" "compact" sessionId)) /\
  getSessionState fetch sessionId
    = outcomeOf (fetch (sessionRequest "GET" "state" sessionId)).
Proof.
  assert (Hchecked : forall answer, bind answer checked = outcomeOf answer).
  { intros [response|e]; cbn; [|reflexivity].
    destruct (ok response) eqn:Hok.
    - unfold checked. rewrite Hok. reflexivity.
    - apply checked_not_ok, Hok. }
  unfold editMessage, clearSession, compactSession, getSessionState.
  rewrite !Hchecked. repeat split; reflexivity.
Qed.

Lemma list_ascii_app (a b : string) :
  list_ascii_of_string (a ++ b)
  = (list_ascii_of_string a ++ list_ascii_of_string b)%list.
Proof.
  induction a as [|x a IH]; [reflexivity|].
  change (String x a ++ b) with (String x (a ++ b)). cbn. rewrite IH. reflexivity.
Qed.

Lemma list_ascii_inj (a b : string) :
  list_ascii_of_string a = list_ascii_of_string b -> a = b.
Proof.
  intros H. rewrite <- (string_of_list_ascii_of_string a),
              <- (string_of_list_ascii_of_string b), H. reflexivity.
Qed.

Lemma append_cancel_r (a b t : string) : a ++ t = b ++ t -> a = b.
Proof.
  intros H. apply list_ascii_inj. apply (f_equal list_ascii_of_string) in H.
  rewrite !list_ascii_app in H. eapply app_inv_tail. exact H.
Qed.

Lemma append_cancel_l (t a b : string) : t ++ a = t ++ b -> a = b.
Proof.
  induction t as [|x t IH]; [auto|].
  change (String x t ++ a) with (String x (t ++ a)).
  change (String x t ++ b) with (String x (t ++ b)).
  intros H. injection H as H. auto.
Qed.

Lemma append_last_differs (a b t t' : string) (c c' : ascii) :
  c <> c' -> a ++ t ++ String c "" <> b ++ t' ++ String c' "".
Proof.
  intros Hne H. apply (f_equal list_ascii_of_string) in H.
  rewrite !list_ascii_app in H. cbn in H.
  rewrite !app_assoc in H. apply app_inj_tail in H. tauto.
Qed.

(** The address of a session-level request names its session: two
    requests of the same kind go to the same URL only for the same session
    id, whatever characters the ids hold; and no [clear] request goes to the
    URL of a [compact] or [state] request of any session. *)
Theorem session_urls_name_the_session (verb action s1 s2 : string) :
  (url (sessionRequest verb action s1) = url (sessionRequest verb action s2)
   <-> s1 = s2) /\
  url (sessionRequest "POST" "clear" s1) <> url (sessionRequest "POST" "compact" s2) /\
  url (sessionRequest "POST" "clear" s1) <> url (sessionRequest "GET" "state" s2) /\
  url (sessionRequest "POST" "compact" s1) <> url (sessionRequest "GET" "state" s2).
Proof.
  unfold sessionRequest. cbn [url].
  split; [split; [|intros ->; reflexivity]|].
  - intros H. apply append_cancel_l, append_cancel_l in H.
    eapply append_cancel_r. exact H.
  - repeat split; intros H; apply append_cancel_l, append_cancel_l in H.
    + exact (append_last_differs s1 s2 "/clea" "/compac" "r" "t" ltac:(discriminate) H).
    + exact (append_last_differs s1 s2 "/clea" "/stat" "r" "e" ltac:(discriminate) H).
    + exact (append_last_differs s1 s2 "/compac" "/stat" "t" "e" ltac:(discriminate) H).
Qed.

Lemma slashFree_message_split (s1 s2 m1 m2 : string) :
  slashFree s1 = true -> slashFree s2 = true ->
  s1 ++ "/message/" ++ m1 = s2 ++ "/message/" ++ m2 ->
  s1 = s2 /\ m1 = m2.
Proof.
  revert s2. induction s1 as [|x s1 IH]; intros [|y s2] H1 H2 H.
  - split; [reflexivity|]. exact (append_cancel_l "/message/" _ _ H).
  - exfalso. cbn in H2. injection H as Hy _. subst y. discriminate H2.
  - exfalso. cbn in H1. injection H as Hx _. subst x. discriminate H1.
  - change (String x s1 ++ "/message/" ++ m1)
      with (String x (s1 ++ "/message/" ++ m1)) in H.
    change (String y s2 ++ "/message/" ++ m2)
      with (String y (s2 ++ "/message/" ++ m2)) in H.
    injection H as Hxy H. cbn in H1, H2.
    apply andb_true_iff in H1, H2.
    destruct (IH s2 (proj2 H1) (proj2 H2) H) as [-> ->]. subst y. auto.
Qed.

(** Identifiers are spliced into the path as they are.  As long as the
    session ids hold no [/], the URL of an [editMessage] request names its
    session and its message; with a [/] in the session id it need not: the
    message [c] of session [a/message/b] and the message [b/message/c] of
    session [a] share one URL. *)
Theorem edit_url_names_session_and_message (s1 m1 c1 s2 m2 c2 : string) :
  slashFree s1 = true -> slashFree s2 = true ->
  (url (editMessageRequest s1 m1 c1) = url (editMessageRequest s2 m2 c2)
   <-> s1 = s2 /\ m1 = m2) /\
  url (editMessageRequest "a/message/b" "c" c1)
  = url (editMessageRequest "a" "b/message/c" c1).
Proof.
  intros H1 H2. split; [|reflexivity].
  unfold editMessageRequest. cbn [url]. split.
  - intros H. apply append_cancel_l, append_cancel_l in H.
    apply slashFree_message_split; assumption.
  - intros [-> ->]. reflexivity.
Qed.

(** Two messages of session [s1]. *)
Lemma edit_url_names_session_and_message_witness :
  url (editMessageRequest "s1" "m1" "hello") <> url (editMessageRequest "s1" "m2" "hello").
Proof.
  destruct (edit_url_names_session_and_message "s1" "m1" "hello" "s1" "m2" "hello"
              eq_refl eq_refl) as [Hiff _].
  intros Hurl. apply Hiff in Hurl. destruct Hurl as [_ Hm]. discriminate Hm.
Defined.

End ApiOutcomes.

(** ** The command history in time *)

Section HistoryOrder.
Import Store Examples.
Local Open Scope list_scope.

Lemma chronological_app (older newer : list HistoryEntry) :
  chronological older -> chronological newer ->
  (forall e e', In e older -> In e' newer -> (timestamp e <= timestamp e')%Z) ->
  chronological (older ++ newer).
Proof.
  induction older as [|x older IH]; cbn; intros Ho Hn Hcross; [exact Hn|].
  destruct Ho as [Hx Ho]. split.
  - apply Forall_app. split; [exact Hx|].
    apply List.Forall_forall. intros e' He'. apply Hcross; auto.
  - apply IH; auto.
Qed.

Lemma chronological_entries (attempts : list Attempt) :
  clockMonotone attempts ->
  chronological (map entryOf (List.filter attemptActive attempts)).
Proof.
  induction attempts as [|a attempts IH]; cbn; intros Hmono; [exact I|].
  destruct Hmono as [Ha Hmono].
  destruct (attemptActive a); cbn; [|auto].
  split; [|auto].
  apply List.Forall_forall. intros e He.
  apply in_map_iff in He. destruct He as (a' & <- & Ha').
  apply filter_In in Ha'. rewrite List.Forall_forall in Ha.
  cbn. apply Ha. tauto.
Qed.

(** The history stays in chronological order: if it was so before a run of
    attempts, if no entry is younger than the first clock reading of the run
    and the clock never goes back during it, then it is so after, with the
    entries of failed and successful attempts interleaved as they came. *)
Theorem history_stays_chronological (history : list HistoryEntry)
    (attempts : list Attempt) :
  chronological history ->
  clockMonotone attempts ->
  (forall e a, In e history -> In a attempts -> (timestamp e <= attemptTime a)%Z) ->
  chronological (runAttempts history attempts).
Proof.
  intros Hhistory Hmono Hcross. rewrite runAttempts_history.
  apply chronological_app; [exact Hhistory|apply chronological_entries, Hmono|].
  intros e e' He He'. apply in_map_iff in He'.
  destruct He' as (a & <- & Ha). apply filter_In in Ha. cbn. apply Hcross; tauto.
Qed.

(** A [clear] and, half a second later, a [compact] that fails. *)
Lemma history_stays_chronological_witness :
  chronological (runAttempts [] mixedAttempts).
Proof.
  apply history_stays_chronological.
  - exact I.
  - cbn. repeat split; repeat constructor. cbn. lia.
  - intros e a [].
Defined.

End HistoryOrder.

(** ** Built-in commands the catalog does not shadow *)

Section Unshadowed.
Import Autocomplete Spec Examples.

Lemma fold_found_unchanged (cmds : list CommandInfo) (n : string)
    (found : option CommandInfo) :
  (forall c, In c cmds -> name c <> n) ->
  fold_left (fun found c => if String.eqb (name c) n then Some c else found) cmds found
  = found.
Proof.
  revert found. induction cmds as [|c cmds IH]; cbn; intros found Hne; [reflexivity|].
  rewrite IH by auto.
  destruct (String.eqb_spec (name c) n) as [Heq|_]; [|reflexivity].
  exfalso. exact (Hne c (or_introl eq_refl) Heq).
Qed.

Lemma builtInCommands_unique (sel : Selected) (b b' : CommandInfo) :
  In b (builtInCommands sel) -> In b' (builtInCommands sel) ->
  name b' = name b -> b' = b.
Proof.
  unfold builtInCommands.
  destruct (hasMessagesInCurrentSession sel); cbn; intros Hb Hb';
    repeat (destruct Hb as [<-|Hb];
            [repeat (destruct Hb' as [<-|Hb']; [cbn; congruence|]); destruct Hb'|]);
    destruct Hb.
Qed.

(** The dynamic catalog adds and overrides but never removes: a built-in
    command whose name no catalog entry carries comes out of the merge as it
    went in, as the only candidate of that name. *)
Theorem unshadowed_builtIn_survives (sel : Selected) (apiCommands : list ApiCommand)
    (b : CommandInfo) :
  In b (builtInCommands sel) ->
  (forall d, In d apiCommands -> apiName d <> name b) ->
  entriesNamed (name b)
    (mergeCommands (builtInCommands sel) (map customCommand apiCommands))
  = [b].
Proof.
  intros Hb Hfree.
  assert (Hk : keyed (setEach (map customCommand apiCommands)
                        (setEach (builtInCommands sel) [])))
    by (apply setEach_keyed, setEach_keyed; constructor).
  assert (Hnd : List.NoDup (map fst (setEach (map customCommand apiCommands)
                                       (setEach (builtInCommands sel) []))))
    by (apply setEach_NoDup, setEach_NoDup; constructor).
  unfold mergeCommands. rewrite mapGet_keyed_names by assumption.
  rewrite setEach_get, fold_found_unchanged.
  - rewrite setEach_get. cbn [mapGet].
    change (fold_left _ (builtInCommands sel) None)
      with (lastNamed (name b) (builtInCommands sel)).
    rewrite lastNamed_unique; [reflexivity|exact Hb|].
    intros b' Hb' Hname. eapply builtInCommands_unique; eassumption.
  - intros c Hc. apply in_map_iff in Hc. destruct Hc as (d & <- & Hd).
    apply Hfree, Hd.
Qed.

(** [shadowingCatalog] carries no [clear]. *)
Lemma unshadowed_builtIn_survives_witness :
  entriesNamed "clear"
    (mergeCommands (builtInCommands (selector revertedSession))
                   (map customCommand shadowingCatalog))
  = [builtIn "clear" "Clear current session"].
Proof.
  apply (unshadowed_builtIn_survives (selector revertedSession) shadowingCatalog
           (builtIn "clear" "Clear current session")).
  - vm_compute. tauto.
  - intros d [<-|[<-|[]]]; discriminate.
Defined.

End Unshadowed.
